(** * Backtest result cache: hashing, identity and statistics

    A shallow embedding of [engine/cache/hasher.py] and
    [engine/models/backtest_models.py], with the properties the
    specification states about them, and of the message store of
    [main.py], with further properties of the three files.

    Python values are embedded as the inductive type [value]; a call that
    may raise returns a [result]; the digest and the few text renderings
    that belong to the Python runtime ([hashlib], [float.__repr__],
    [datetime.isoformat]) are section variables. *)

From Stdlib Require Import List String Ascii Bool Arith ZArith QArith Lia.
From Stdlib Require Import Permutation Sorted DecimalString.
Import ListNotations.

Set Warnings "-register-all".

Local Open Scope string_scope.
Local Open Scope Z_scope.

(** ** Values *)

(** The structured values the hasher receives: what [json.loads] yields.
    An [int] is unbounded; a [float] is the rational it denotes (only
    finite floats are modelled: the result of sorting a list that holds a
    NaN depends on the comparison schedule of the sort and is outside this
    embedding); a [str] is its sequence of characters; a [dict] is the
    list of its items in insertion order, whose keys are strings and
    pairwise distinct (see [wf]). *)
Inductive value : Type :=
| VNone
| VBool (b : bool)
| VInt (z : Z)
| VFloat (q : Q)
| VStr (s : string)
| VList (l : list value)
| VDict (d : list (string * value)).

(** Induction over values that reaches the elements of lists and the
    values of dicts. *)
Section ValueInd.
Variable P : value -> Prop.
Hypothesis HNone : P VNone.
Hypothesis HBool : forall b, P (VBool b).
Hypothesis HInt : forall z, P (VInt z).
Hypothesis HFloat : forall q, P (VFloat q).
Hypothesis HStr : forall s, P (VStr s).
Hypothesis HList : forall l, Forall P l -> P (VList l).
Hypothesis HDict : forall d, Forall (fun kv => P (snd kv)) d -> P (VDict d).

Fixpoint value_ind' (v : value) : P v :=
  match v with
  | VNone => HNone
  | VBool b => HBool b
  | VInt z => HInt z
  | VFloat q => HFloat q
  | VStr s => HStr s
  | VList l =>
      HList l ((fix go (l : list value) : Forall P l :=
                  match l with
                  | [] => Forall_nil P
                  | x :: l' => Forall_cons x (value_ind' x) (go l')
                  end) l)
  | VDict d =>
      HDict d ((fix go (d : list (string * value))
                : Forall (fun kv => P (snd kv)) d :=
                  match d with
                  | [] => Forall_nil _
                  | kv :: d' =>
                      Forall_cons kv (value_ind' (snd kv)) (go d')
                  end) d)
  end.
End ValueInd.

(** [type(v).__name__] *)
Definition type_name (v : value) : string :=
  match v with
  | VNone => "NoneType"
  | VBool _ => "bool"
  | VInt _ => "int"
  | VFloat _ => "float"
  | VStr _ => "str"
  | VList _ => "list"
  | VDict _ => "dict"
  end.

(** ** Exceptions and fallible computations *)

Module Py.

(** The exceptions the modelled code raises.  [TypeError_not_supported] is
    the interpreter's own error of an ordering comparison between operands
    that define none, with the names of their types;
    [TypeError_unsortable] is [TypeError("Unsortable list items found")];
    [ValueError_invalid_hash] is [ValueError(f"Invalid hash format:
    {hash_val}")]; [AttributeError] is the error of looking up an
    attribute that an object of the class does not have. *)
Inductive exn : Type :=
| TypeError_not_supported (left_type right_type : string)
| TypeError_unsortable
| ValueError_invalid_hash (hash_val : value)
| AttributeError (class_name attribute : string).

Inductive result (A : Type) : Type :=
| Ok (a : A)
| Raise (e : exn).

Arguments Ok {A} a.
Arguments Raise {A} e.

Definition bind {A B : Type} (c : result A) (k : A -> result B) : result B :=
  match c with
  | Ok a => k a
  | Raise e => Raise e
  end.

Definition is_TypeError (e : exn) : bool :=
  match e with
  | TypeError_not_supported _ _ | TypeError_unsortable => true
  | _ => false
  end.

End Py.

Export Py.

Notation "x <- c ;; k" := (bind c (fun x => k))
  (at level 61, c at next level, right associativity).

(** Sequencing a list of computations from left to right: the value of a
    comprehension whose element expression may raise. *)
Fixpoint sequence {A : Type} (l : list (result A)) : result (list A) :=
  match l with
  | [] => Ok []
  | c :: l' => a <- c ;; r <- sequence l' ;; Ok (a :: r)
  end.

(** The number a value denotes, when it is one: [bool] is a subclass of
    [int], and [int] and [float] compare by exact value. *)
Definition num_val (v : value) : option Q :=
  match v with
  | VBool b => Some (inject_Z (if b then 1 else 0))
  | VInt z => Some (inject_Z z)
  | VFloat q => Some q
  | _ => None
  end.

Definition Qltb (x y : Q) : bool :=
  (Qnum x * QDen y <? Qnum y * QDen x)%Z.

Fixpoint dict_get (k : string) (d : list (string * value)) : option value :=
  match d with
  | [] => None
  | (k', v) :: d' => if String.eqb k k' then Some v else dict_get k d'
  end.

(** [a == b].  Numbers by value, strings and lists element by element,
    dicts as unordered mappings; values of unrelated types are unequal. *)
Fixpoint py_eq (a b : value) {struct a} : bool :=
  match a, b with
  | VNone, VNone => true
  | VStr s, VStr t => String.eqb s t
  | VList l, VList m =>
      (fix go (l m : list value) {struct l} : bool :=
         match l, m with
         | [], [] => true
         | x :: l', y :: m' => py_eq x y && go l' m'
         | _, _ => false
         end) l m
  | VDict d, VDict e =>
      Nat.eqb (List.length d) (List.length e) &&
      (fix go (d : list (string * value)) : bool :=
         match d with
         | [] => true
         | (k, v) :: d' =>
             match dict_get k e with
             | Some w => py_eq v w && go d'
             | None => false
             end
         end) d
  | _, _ =>
      match num_val a, num_val b with
      | Some x, Some y => Qeq_bool x y
      | _, _ => false
      end
  end.

(** [a < b].  Defined between two numbers, two strings and two lists;
    a list comparison looks for the first index at which the elements are
    unequal and compares there, or compares the lengths when one list is a
    prefix of the other.  Everything else raises [TypeError]. *)
Fixpoint py_lt (a b : value) {struct a} : result bool :=
  match a, b with
  | VStr s, VStr t => Ok (String.ltb s t)
  | VList l, VList m =>
      (fix go (l m : list value) {struct l} : result bool :=
         match l, m with
         | x :: l', y :: m' => if py_eq x y then go l' m' else py_lt x y
         | [], _ :: _ => Ok true
         | _, [] => Ok false
         end) l m
  | _, _ =>
      match num_val a, num_val b with
      | Some x, Some y => Ok (Qltb x y)
      | _, _ => Raise (TypeError_not_supported (type_name a) (type_name b))
      end
  end.

(** ** [sorted] *)

(** The built-in [sorted]: a stable sort that compares with [<] only and
    lets an exception of a comparison through.  CPython sorts a short
    list by insertion, asking of each element whether it is less than
    elements placed before it; the model is the insertion sort that puts
    each element before the first one it is less than.  A single element
    is never compared, so a list of one element is returned whatever the
    element is; a list that holds elements of two types between which
    [<] is not defined makes every comparison sort raise, since none can
    place them without comparing two such elements. *)
Section Sorted.
Context {A : Type}.
Variable lt : A -> A -> result bool.

Fixpoint insert (x : A) (l : list A) : result (list A) :=
  match l with
  | [] => Ok [x]
  | y :: l' =>
      b <- lt x y ;;
      if b then Ok (x :: y :: l')
      else r <- insert x l' ;; Ok (y :: r)
  end.

Fixpoint sort_into (acc l : list A) : result (list A) :=
  match l with
  | [] => Ok acc
  | x :: l' => acc' <- insert x acc ;; sort_into acc' l'
  end.

Definition sorted (l : list A) : result (list A) := sort_into [] l.
End Sorted.

(** [(k1, v1) < (k2, v2)] on the items of a dict: tuples compare at the
    first component that is unequal.  The third component carries the
    result computed for the item's value; it takes no part in the
    comparison. *)
Definition item_lt {R : Type} (x y : string * value * R) : result bool :=
  let '(k1, v1, _) := x in
  let '(k2, v2, _) := y in
  if String.eqb k1 k2
  then (if py_eq v1 v2 then Ok false else py_lt v1 v2)
  else Ok (String.ltb k1 k2).

(** ** The hash generator *)

Module BacktestHashGenerator.

(** [_normalize_dict].  For a dict the comprehension runs over
    [sorted(data.items())] and normalizes each value in that order; the
    embedding attaches to each item the result of normalizing its value
    before the sort, so that the recursion is structural, and sequences
    these results in the sorted order.  For a list, the [try] block turns
    any [TypeError] of the comprehension or of [sorted] into the
    unsortable-list error. *)
Fixpoint _normalize_dict (data : value) : result value :=
  match data with
  | VDict d =>
      let items :=
        (fix go (d : list (string * value))
           : list (string * value * result value) :=
           match d with
           | [] => []
           | (key, v) :: d' => (key, v, _normalize_dict v) :: go d'
           end) d in
      s <- sorted item_lt items ;;
      r <- sequence
             (map (fun it : string * value * result value =>
                     v' <- snd it ;; Ok (fst (fst it), v')) s) ;;
      Ok (VDict r)
  | VList l =>
      let attempt :=
        items <- sequence
                   ((fix go (l : list value) : list (result value) :=
                       match l with
                       | [] => []
                       | item :: l' => _normalize_dict item :: go l'
                       end) l) ;;
        sorted py_lt items in
      match attempt with
      | Ok s => Ok (VList s)
      | Raise e =>
          if is_TypeError e then Raise TypeError_unsortable else Raise e
      end
  | _ => Ok data
  end.

(** *** [json.dumps(obj, sort_keys=True, separators=(',', ':'))] *)

Definition quote : string := String (ascii_of_nat 34) EmptyString.

Definition hex_digit (n : nat) : ascii :=
  match n with
  | 0 => "0" | 1 => "1" | 2 => "2" | 3 => "3" | 4 => "4" | 5 => "5"
  | 6 => "6" | 7 => "7" | 8 => "8" | 9 => "9" | 10 => "a" | 11 => "b"
  | 12 => "c" | 13 => "d" | 14 => "e" | _ => "f"
  end%char%nat.

(** One character of a string literal, as [encode_basestring_ascii]
    writes it: the two-character escapes of JSON, a [\u00XX] escape for
    every other character outside the printable ASCII range, and the
    character itself otherwise. *)
Definition escape_char (c : ascii) : string :=
  let n := nat_of_ascii c in
  if Nat.eqb n 34 then "\" ++ quote
  else if Nat.eqb n 92 then "\\"
  else if Nat.eqb n 10 then "\n"
  else if Nat.eqb n 13 then "\r"
  else if Nat.eqb n 9 then "\t"
  else if Nat.eqb n 8 then "\b"
  else if Nat.eqb n 12 then "\f"
  else if (Nat.ltb n 32 || Nat.ltb 126 n)%bool
  then "\u00" ++ String (hex_digit (Nat.div n 16))
                   (String (hex_digit (Nat.modulo n 16)) EmptyString)
  else String c EmptyString.

Fixpoint escape (s : string) : string :=
  match s with
  | EmptyString => EmptyString
  | String c s' => escape_char c ++ escape s'
  end.

Definition encode_basestring_ascii (s : string) : string :=
  quote ++ escape s ++ quote.

(** [int.__repr__] *)
Definition int_repr (z : Z) : string :=
  DecimalString.NilZero.string_of_int (Z.to_int z).

Section Hashing.

(** [float.__repr__], the shortest decimal text that reads back as the
    same float. *)
Variable float_repr : Q -> string.

(** [hashlib.sha256(s.encode('utf-8')).hexdigest()] *)
Variable sha256_hexdigest : string -> string.

(** The encoder writes a dict as its items in the order of
    [sorted(dct.items())], each as the encoded key, the key separator and
    the encoded value; as in [_normalize_dict], the text of each value is
    attached to its item before the sort. *)
Fixpoint json_dumps (o : value) : result string :=
  match o with
  | VNone => Ok "null"
  | VBool true => Ok "true"
  | VBool false => Ok "false"
  | VInt z => Ok (int_repr z)
  | VFloat q => Ok (float_repr q)
  | VStr s => Ok (encode_basestring_ascii s)
  | VList l =>
      parts <- sequence
                 ((fix go (l : list value) : list (result string) :=
                     match l with
                     | [] => []
                     | item :: l' => json_dumps item :: go l'
                     end) l) ;;
      Ok ("[" ++ String.concat "," parts ++ "]")
  | VDict d =>
      let items :=
        (fix go (d : list (string * value))
           : list (string * value * result string) :=
           match d with
           | [] => []
           | (key, v) :: d' => (key, v, json_dumps v) :: go d'
           end) d in
      s <- sorted item_lt items ;;
      parts <- sequence
                 (map (fun it : string * value * result string =>
                         t <- snd it ;;
                         Ok (encode_basestring_ascii (fst (fst it))
                               ++ ":" ++ t)) s) ;;
      Ok ("{" ++ String.concat "," parts ++ "}")
  end.

Definition hash_strategy_config (strategy_config : value) : result string :=
  normalized <- _normalize_dict strategy_config ;;
  config_string <- json_dumps normalized ;;
  Ok (sha256_hexdigest config_string).

Definition hash_parameters (params : value) : result string :=
  normalized <- _normalize_dict params ;;
  params_string <- json_dumps normalized ;;
  Ok (sha256_hexdigest params_string).

Definition create_backtest_hash
  (data_hash strategy_hash params_hash : string) : string :=
  let combined := data_hash ++ ":" ++ strategy_hash ++ ":" ++ params_hash in
  sha256_hexdigest combined.

End Hashing.

End BacktestHashGenerator.

(** ** The record model *)

Module Models.

(** A [datetime] is a count of microseconds; only its order matters
    here. *)
Definition datetime : Type := Z.

Record BacktestIdentity : Type := {
  data_hash : string;
  strategy_hash : string;
  params_hash : string;
  master_hash : string
}.

(** The test of [__post_init__] on one hash:
    [not isinstance(hash_val, str) or len(hash_val) != 64]. *)
Definition invalid_hash_format (hash_val : value) : bool :=
  match hash_val with
  | VStr s => negb (Nat.eqb (String.length s) 64)
  | _ => true
  end.

Definition validated (hash_val : value) : result string :=
  match hash_val with
  | VStr s =>
      if invalid_hash_format hash_val
      then Raise (ValueError_invalid_hash hash_val) else Ok s
  | _ => Raise (ValueError_invalid_hash hash_val)
  end.

(** Construction of a [BacktestIdentity]: the dataclass stores the four
    arguments and [__post_init__] walks them in the order data, strategy,
    params, master, raising at the first that fails the test. *)
Definition BacktestIdentity_init
  (data_hash strategy_hash params_hash master_hash : value)
  : result BacktestIdentity :=
  d <- validated data_hash ;;
  s <- validated strategy_hash ;;
  p <- validated params_hash ;;
  m <- validated master_hash ;;
  Ok {| data_hash := d; strategy_hash := s;
        params_hash := p; master_hash := m |}.

Record BacktestMetadata : Type := {
  created_at : datetime;
  last_accessed : datetime;
  access_count : Z;
  execution_time_seconds : Q;
  data_filename : option string;
  data_size_bytes : option Z;
  data_rows : Z
}.

(** [BacktestMetadata.mark_accessed]; [now] is what [datetime.now()]
    returns during the call. *)
Definition BacktestMetadata_mark_accessed
  (now : datetime) (self : BacktestMetadata) : BacktestMetadata :=
  {| created_at := created_at self;
     last_accessed := now;
     access_count := access_count self + 1;
     execution_time_seconds := execution_time_seconds self;
     data_filename := data_filename self;
     data_size_bytes := data_size_bytes self;
     data_rows := data_rows self |}.

Record BacktestResult : Type := {
  raw_results : list Byte.byte;
  summary : list (string * value);
  equity_curve : list value;
  trades : option (list value)
}.

(** What an attribute of a model object holds. *)
Inductive pyobj : Type :=
| OBytes (b : list Byte.byte)
| OValue (v : value).

(** [getattr(self, name)] on a [BacktestResult]: its data attributes are
    the four fields of the dataclass (its other attributes are the
    methods [from_simulation] and [get_raw_results] and what every object
    has, none of which the code below looks up). *)
Definition BacktestResult_getattr
  (self : BacktestResult) (name : string) : result pyobj :=
  if String.eqb name "raw_results" then Ok (OBytes (raw_results self))
  else if String.eqb name "summary" then Ok (OValue (VDict (summary self)))
  else if String.eqb name "equity_curve"
  then Ok (OValue (VList (equity_curve self)))
  else if String.eqb name "trades"
  then Ok (OValue (match trades self with
                   | Some l => VList l
                   | None => VNone
                   end))
  else Raise (AttributeError "BacktestResult" name).

Record BacktestRecord : Type := {
  identity : BacktestIdentity;
  metadata : BacktestMetadata;
  results : BacktestResult
}.

Definition BacktestRecord_mark_accessed
  (now : datetime) (self : BacktestRecord) : BacktestRecord :=
  {| identity := identity self;
     metadata := BacktestMetadata_mark_accessed now (metadata self);
     results := results self |}.

Section ApiDict.

(** [datetime.isoformat] *)
Variable isoformat : datetime -> string.

Definition optional_str (o : option string) : value :=
  match o with
  | Some s => VStr s
  | None => VNone
  end.

(** [BacktestRecord.to_api_dict]: the entries of the dict display are
    evaluated in the order they are written. *)
Definition to_api_dict (self : BacktestRecord)
  : result (list (string * pyobj)) :=
  let master := master_hash (identity self) in
  let data := substring 0 16 (data_hash (identity self)) ++ "..." in
  let strategy := substring 0 16 (strategy_hash (identity self)) ++ "..." in
  stats <- BacktestResult_getattr (results self) "stats" ;;
  curve <- BacktestResult_getattr (results self) "equity_curve" ;;
  Ok [ ("master_hash", OValue (VStr master));
       ("data_hash", OValue (VStr data));
       ("strategy_hash", OValue (VStr strategy));
       ("stats", stats);
       ("equity_curve", curve);
       ("created_at", OValue (VStr (isoformat (created_at (metadata self)))));
       ("last_accessed",
         OValue (VStr (isoformat (last_accessed (metadata self)))));
       ("access_count", OValue (VInt (access_count (metadata self))));
       ("execution_time_seconds",
         OValue (VFloat (execution_time_seconds (metadata self))));
       ("data_filename", OValue (optional_str (data_filename (metadata self))));
       ("data_rows", OValue (VInt (data_rows (metadata self)))) ].

End ApiDict.

Record CacheStats : Type := {
  total_records : Z;
  total_data_hashes : Z;
  total_strategy_hashes : Z;
  cache_hits : Z;
  cache_misses : Z;
  total_requests : Z
}.

(** [CacheStats()] *)
Definition CacheStats_default : CacheStats :=
  {| total_records := 0; total_data_hashes := 0;
     total_strategy_hashes := 0; cache_hits := 0; cache_misses := 0;
     total_requests := 0 |}.

(** The rates are floats.  A float is embedded as the rational it
    denotes; the two float operations of the code are not computed here
    but taken as they are in the interpreter: [int_true_divide a b] is
    [a / b] on two ints with [b] not zero, the float nearest to the
    quotient, or [None] where Python raises [OverflowError] because the
    quotient is too large for a float; [float_sub x y] is [x - y] on two
    floats.  The constants [0.0] and [1.0] denote 0 and 1. *)
Section Rates.

Variable int_true_divide : Z -> Z -> option Q.
Variable float_sub : Q -> Q -> Q.

Definition hit_rate (self : CacheStats) : option Q :=
  if Z.eqb (total_requests self) 0 then Some 0%Q
  else int_true_divide (cache_hits self) (total_requests self).

Definition miss_rate (self : CacheStats) : option Q :=
  match hit_rate self with
  | Some rate => Some (float_sub 1%Q rate)
  | None => None
  end.

End Rates.

Definition record_hit (self : CacheStats) : CacheStats :=
  {| total_records := total_records self;
     total_data_hashes := total_data_hashes self;
     total_strategy_hashes := total_strategy_hashes self;
     cache_hits := cache_hits self + 1;
     cache_misses := cache_misses self;
     total_requests := total_requests self + 1 |}.

Definition record_miss (self : CacheStats) : CacheStats :=
  {| total_records := total_records self;
     total_data_hashes := total_data_hashes self;
     total_strategy_hashes := total_strategy_hashes self;
     cache_hits := cache_hits self;
     cache_misses := cache_misses self + 1;
     total_requests := total_requests self + 1 |}.

End Models.

(** ** Vocabulary of the properties *)

(** The sort without the exceptions: insertion by a total boolean
    comparison.  [sorted] computes it whenever no comparison raises. *)
Section PureSort.
Context {A : Type}.
Variable ltb : A -> A -> bool.

Fixpoint pinsert (x : A) (l : list A) : list A :=
  match l with
  | [] => [x]
  | y :: l' => if ltb x y then x :: y :: l' else y :: pinsert x l'
  end.

Fixpoint psort_into (acc l : list A) : list A :=
  match l with
  | [] => acc
  | x :: l' => psort_into (pinsert x acc) l'
  end.

Definition psort (l : list A) : list A := psort_into [] l.

(** [x] is not after [y] in the order of [ltb]. *)
Definition not_after (x y : A) : Prop := ltb y x = false.
End PureSort.

(** The comparison of two items by their keys alone. *)
Definition key_ltb {X : Type} (x y : string * X) : bool :=
  String.ltb (fst x) (fst y).

(** A value is well formed when, at every depth, the keys of a dict are
    pairwise distinct: what Python's [dict] guarantees. *)
Inductive wf : value -> Prop :=
| wf_None : wf VNone
| wf_Bool b : wf (VBool b)
| wf_Int z : wf (VInt z)
| wf_Float q : wf (VFloat q)
| wf_Str s : wf (VStr s)
| wf_List l : Forall wf l -> wf (VList l)
| wf_Dict d :
    NoDup (map fst d) -> Forall (fun kv => wf (snd kv)) d -> wf (VDict d).

(** [key_perm v v']: [v'] is [v] with the items of its dicts listed in
    another order, at any depth; lists keep the order of their
    elements. *)
Inductive key_perm : value -> value -> Prop :=
| kp_None : key_perm VNone VNone
| kp_Bool b : key_perm (VBool b) (VBool b)
| kp_Int z : key_perm (VInt z) (VInt z)
| kp_Float q : key_perm (VFloat q) (VFloat q)
| kp_Str s : key_perm (VStr s) (VStr s)
| kp_List l l' : Forall2 key_perm l l' -> key_perm (VList l) (VList l')
| kp_Dict d d1 d' :
    Permutation d d1 ->
    Forall2 (fun kv kv' => fst kv = fst kv' /\ key_perm (snd kv) (snd kv'))
      d1 d' ->
    key_perm (VDict d) (VDict d').

(** The types between whose values [<] is defined at all. *)
Inductive order_class : Type :=
| CNumber | CString | CList | CNoneType | CDict.

Definition class_of (v : value) : order_class :=
  match v with
  | VNone => CNoneType
  | VBool _ | VInt _ | VFloat _ => CNumber
  | VStr _ => CString
  | VList _ => CList
  | VDict _ => CDict
  end.

Definition order_class_eqb (c c' : order_class) : bool :=
  match c, c' with
  | CNumber, CNumber | CString, CString | CList, CList
  | CNoneType, CNoneType | CDict, CDict => true
  | _, _ => false
  end.

Definition is_number (v : value) : bool :=
  order_class_eqb (class_of v) CNumber.

Definition is_string (v : value) : bool :=
  order_class_eqb (class_of v) CString.

Definition is_mapping (v : value) : bool :=
  order_class_eqb (class_of v) CDict.

(** The order of the elements of a sorted list of numbers or of strings:
    numbers by value, strings lexicographically. *)
Definition elt_le (a b : value) : Prop :=
  match a, b with
  | VStr s, VStr t => String.leb s t = true
  | _, _ =>
      match num_val a, num_val b with
      | Some x, Some y => (x <= y)%Q
      | _, _ => False
      end
  end.

(** The outcome of [a < b] where it is defined. *)
Definition val_ltb (a b : value) : bool :=
  match py_lt a b with
  | Ok r => r
  | Raise _ => false
  end.

(** The serialization as the specification words it: the keys of a
    mapping in lexicographic order, [","] between entries and elements,
    [":"] between a key and its value, and nothing else between the
    encoded scalars. *)
Section SpecSerialize.
Variable float_repr : Q -> string.
Variable digest : string -> string.

Fixpoint serialize (v : value) : string :=
  match v with
  | VNone => "null"
  | VBool true => "true"
  | VBool false => "false"
  | VInt z => BacktestHashGenerator.int_repr z
  | VFloat q => float_repr q
  | VStr s => BacktestHashGenerator.encode_basestring_ascii s
  | VList l =>
      "[" ++ String.concat ","
               ((fix go (l : list value) : list string :=
                   match l with
                   | [] => []
                   | x :: l' => serialize x :: go l'
                   end) l) ++ "]"
  | VDict d =>
      "{" ++ String.concat ","
               (map (fun kt : string * string =>
                       BacktestHashGenerator.encode_basestring_ascii (fst kt)
                         ++ ":" ++ snd kt)
                  (psort key_ltb
                     ((fix go (d : list (string * value))
                         : list (string * string) :=
                         match d with
                         | [] => []
                         | (k, x) :: d' => (k, serialize x) :: go d'
                         end) d))) ++ "}"
  end.

(** [hashStructured]: canonicalize, serialize, digest. *)
Definition hashStructured (v : value) : result string :=
  c <- BacktestHashGenerator._normalize_dict v ;;
  Ok (digest (serialize c)).
End SpecSerialize.

(** A hexadecimal character, in either case. *)
Definition is_hex_char (c : ascii) : bool :=
  let n := nat_of_ascii c in
  ((Nat.leb 48 n && Nat.leb n 57) || (Nat.leb 97 n && Nat.leb n 102)
   || (Nat.leb 65 n && Nat.leb n 70))%bool.

Fixpoint all_hex (s : string) : bool :=
  match s with
  | EmptyString => true
  | String c s' => is_hex_char c && all_hex s'
  end.

(** A string of exactly 64 hexadecimal characters. *)
Definition is_hex64 (v : value) : bool :=
  match v with
  | VStr s => Nat.eqb (String.length s) 64 && all_hex s
  | _ => false
  end.

(** A string of exactly 64 characters. *)
Definition is_str64 (v : value) : bool :=
  match v with
  | VStr s => Nat.eqb (String.length s) 64
  | _ => false
  end.



(** The statistics a cache can show: those of a fresh [CacheStats()]
    after any sequence of [record_hit] and [record_miss]. *)
Inductive reachable : Models.CacheStats -> Prop :=
| reach_default : reachable Models.CacheStats_default
| reach_hit s : reachable s -> reachable (Models.record_hit s)
| reach_miss s : reachable s -> reachable (Models.record_miss s).

(** ** Vocabulary of the further properties *)

(** A plain value: its dicts have distinct keys and each of its lists
    holds numbers only or strings only. *)
Inductive plain : value -> Prop :=
| plain_None : plain VNone
| plain_Bool b : plain (VBool b)
| plain_Int z : plain (VInt z)
| plain_Float q : plain (VFloat q)
| plain_Str s : plain (VStr s)
| plain_List l :
    forallb is_number l = true \/ forallb is_string l = true ->
    plain (VList l)
| plain_Dict d :
    NoDup (map fst d) -> Forall (fun kv => plain (snd kv)) d ->
    plain (VDict d).

(** No two different elements of the list are equal in the order: of two
    elements either one is less than the other or they are the same
    value. *)
Definition tie_free (l : list value) : Prop :=
  forall a b, In a l -> In b l ->
    val_ltb a b = true \/ val_ltb b a = true \/ a = b.

(** [same_config v v']: [v'] is [v] with the items of its dicts listed in
    another order and with its tie-free lists of numbers or of strings
    listed in another order, at any depth. *)
Inductive same_config : value -> value -> Prop :=
| sc_None : same_config VNone VNone
| sc_Bool b : same_config (VBool b) (VBool b)
| sc_Int z : same_config (VInt z) (VInt z)
| sc_Float q : same_config (VFloat q) (VFloat q)
| sc_Str s : same_config (VStr s) (VStr s)
| sc_Perm l l' :
    forallb is_number l = true \/ forallb is_string l = true ->
    tie_free l -> Permutation l l' ->
    same_config (VList l) (VList l')
| sc_List l l' : Forall2 same_config l l' -> same_config (VList l) (VList l')
| sc_Dict d d1 d' :
    Permutation d d1 ->
    Forall2 (fun kv kv' => fst kv = fst kv' /\ same_config (snd kv) (snd kv'))
      d1 d' ->
    same_config (VDict d) (VDict d').

(** [BacktestHashGenerator.hash_csv_data]: the digest of the content of
    the file; [sha256_bytes] is [hashlib.sha256(b).hexdigest()]. *)
Definition hash_csv_data
  (sha256_bytes : list Byte.byte -> string) (csv_content : list Byte.byte)
  : string :=
  sha256_bytes csv_content.

(** [mark_accessed] called once for each reading of the clock, in
    order. *)
Definition mark_accessed_each
  (clock : list Models.datetime) (self : Models.BacktestRecord)
  : Models.BacktestRecord :=
  fold_left (fun r now => Models.BacktestRecord_mark_accessed now r)
    clock self.

(** What a cache reports to its statistics. *)
Inductive report : Type :=
| Hit
| Miss.

Definition record (self : Models.CacheStats) (r : report)
  : Models.CacheStats :=
  match r with
  | Hit => Models.record_hit self
  | Miss => Models.record_miss self
  end.

Definition record_each (rs : list report) (self : Models.CacheStats)
  : Models.CacheStats :=
  fold_left record rs self.

Definition is_hit (r : report) : bool :=
  match r with
  | Hit => true
  | Miss => false
  end.

(** ** [BacktestResult.from_simulation] *)

Module Simulation.

(** The [TypeError] of a call whose keywords do not fit the parameters
    of the callee. *)
Inductive call_error : Type :=
| TypeError_unexpected_keyword (callee keyword : string)
| TypeError_missing_argument (callee parameter : string).

(** The parameters of the [__init__] that [@dataclass] writes for
    [BacktestResult], each with its default when it has one: [trades]
    defaults to a new empty list. *)
Definition BacktestResult_parameters : list (string * option Models.pyobj) :=
  [ ("raw_results", None);
    ("summary", None);
    ("equity_curve", None);
    ("trades", Some (Models.OValue (VList []))) ].

Fixpoint lookup {B : Type} (k : string) (l : list (string * B)) : option B :=
  match l with
  | [] => None
  | (k', b) :: l' => if String.eqb k k' then Some b else lookup k l'
  end.

(** The first keyword of a call that names no parameter. *)
Fixpoint unexpected_keyword {B C : Type}
  (parameters : list (string * B)) (kwargs : list (string * C))
  : option string :=
  match kwargs with
  | [] => None
  | (k, _) :: kwargs' =>
      match lookup k parameters with
      | Some _ => unexpected_keyword parameters kwargs'
      | None => Some k
      end
  end.

(** The attributes of the new object, one for each parameter: the
    keyword's value, or the default; a parameter with neither is
    missing. *)
Fixpoint bind_parameters (callee : string)
  (parameters : list (string * option Models.pyobj))
  (kwargs : list (string * Models.pyobj))
  : call_error + list (string * Models.pyobj) :=
  match parameters with
  | [] => inr []
  | (p, default) :: parameters' =>
      match lookup p kwargs, default with
      | Some o, _ | None, Some o =>
          match bind_parameters callee parameters' kwargs with
          | inr attrs => inr ((p, o) :: attrs)
          | inl e => inl e
          end
      | None, None => inl (TypeError_missing_argument callee p)
      end
  end.

(** The constructor [BacktestResult] called with keywords only: a
    keyword that is no parameter is reported before a parameter that is
    missing. *)
Definition BacktestResult_call (kwargs : list (string * Models.pyobj))
  : call_error + list (string * Models.pyobj) :=
  match unexpected_keyword BacktestResult_parameters kwargs with
  | Some k => inl (TypeError_unexpected_keyword "BacktestResult.__init__" k)
  | None =>
      bind_parameters "BacktestResult.__init__"
        BacktestResult_parameters kwargs
  end.

(** [d.get(key, default)] *)
Definition get (d : list (string * value)) (key : string) (default : value)
  : value :=
  match dict_get key d with
  | Some v => v
  | None => default
  end.

Section FromSimulation.

(** [pickle.dumps] *)
Variable pickle_dumps : value -> list Byte.byte.

Definition from_simulation (simulation_data : list (string * value))
  : call_error + list (string * Models.pyobj) :=
  BacktestResult_call
    [ ("raw_results", Models.OBytes (pickle_dumps (VDict simulation_data)));
      ("stats", Models.OValue (get simulation_data "stats" (VDict [])));
      ("equity_curve",
        Models.OValue (get simulation_data "equity_curve" (VList [])));
      ("trades", Models.OValue (get simulation_data "trades" (VList []))) ].

End FromSimulation.

End Simulation.

(** ** The message store of [main.py] *)

Module Api.

(** The request body [Message]. *)
Record Message : Type := {
  text : string;
  author : option string
}.

(** A stored message: the dict with the keys [id], [text], [author] and
    [timestamp] that [create_message] builds. *)
Record stored_message : Type := {
  msg_id : Z;
  msg_text : string;
  msg_author : option string;
  msg_timestamp : Q
}.

Record ApiResponse : Type := {
  success : bool;
  message : string;
  data : option stored_message
}.

(** What a route returns, or the [HTTPException] it raises. *)
Inductive outcome : Type :=
| Response (r : ApiResponse)
| HTTPException (status_code : Z) (detail : string).

(** The routes read and change the global list [messages_db]; each is
    a function of the list before the call that also returns the list
    after it.  [now] is what [time.time()] returns during the call. *)
Definition create_message
  (now : Q) (message : Message) (messages_db : list stored_message)
  : outcome * list stored_message :=
  let new_message :=
    {| msg_id := Z.of_nat (List.length messages_db) + 1;
       msg_text := text message;
       msg_author := author message;
       msg_timestamp := now |} in
  (Response {| success := true;
               message := "Message created successfully";
               data := Some new_message |},
   (messages_db ++ [new_message])%list).

(** The loop of [update_message]: the first message with the id is
    changed in place and returned. *)
Fixpoint update_first
  (message_id : Z) (message : Message) (messages_db : list stored_message)
  : option (stored_message * list stored_message) :=
  match messages_db with
  | [] => None
  | msg :: rest =>
      if Z.eqb (msg_id msg) message_id
      then
        let msg' :=
          {| msg_id := msg_id msg;
             msg_text := text message;
             msg_author := author message;
             msg_timestamp := msg_timestamp msg |} in
        Some (msg', msg' :: rest)
      else
        match update_first message_id message rest with
        | Some (found, rest') => Some (found, msg :: rest')
        | None => None
        end
  end.

Definition update_message
  (message_id : Z) (message : Message) (messages_db : list stored_message)
  : outcome * list stored_message :=
  match update_first message_id message messages_db with
  | Some (msg, messages_db') =>
      (Response {| success := true;
                   message := "Message updated";
                   data := Some msg |},
       messages_db')
  | None => (HTTPException 404 "Message not found", messages_db)
  end.

Definition delete_message
  (message_id : Z) (messages_db : list stored_message)
  : outcome * list stored_message :=
  let original_length := List.length messages_db in
  let messages_db' :=
    filter (fun msg => negb (Z.eqb (msg_id msg) message_id)) messages_db in
  if Nat.ltb (List.length messages_db') original_length
  then (Response {| success := true;
                    message := "Message deleted";
                    data := None |},
        messages_db')
  else (HTTPException 404 "Message not found", messages_db').

(** [range(n)] *)
Definition range (n : Z) : list Z :=
  map Z.of_nat (seq 0 (Z.to_nat n)).

(** The dict that [search] returns. *)
Record search_response : Type := {
  query : string;
  limit : Z;
  results : list string
}.

Definition search (q : string) (limit : Z) : search_response :=
  {| query := q;
     limit := limit;
     results :=
       map (fun i =>
              "Result " ++ BacktestHashGenerator.int_repr (i + 1)
                ++ " for '" ++ q ++ "'")
         (range (Z.min limit 3)) |}.

(** Creating one message after the other. *)
Fixpoint create_each
  (requests : list (Q * Message)) (messages_db : list stored_message)
  : list stored_message :=
  match requests with
  | [] => messages_db
  | (now, message) :: requests' =>
      create_each requests' (snd (create_message now message messages_db))
  end.

Definition is_response (o : outcome) : bool :=
  match o with
  | Response _ => true
  | HTTPException _ _ => false
  end.

End Api.

(** ** The order of strings *)

Lemma string_compare_refl (s : string) : String.compare s s = Eq.
Proof.
  induction s as [|c s IH]; simpl; [reflexivity|].
  unfold Ascii.compare. now rewrite N.compare_refl.
Qed.

Lemma string_compare_lt_trans (s t u : string) :
  String.compare s t = Lt -> String.compare t u = Lt ->
  String.compare s u = Lt.
Proof.
  revert t u.
  induction s as [|a s IH]; intros [|b t] [|c u]; simpl;
    try discriminate; auto.
  unfold Ascii.compare.
  destruct (N.compare_spec (N_of_ascii a) (N_of_ascii b)) as [Eab|Lab|Gab];
    try discriminate;
    destruct (N.compare_spec (N_of_ascii b) (N_of_ascii c)) as [Ebc|Lbc|Gbc];
    try discriminate; intros Hst Htu.
  - rewrite Eab, Ebc, N.compare_refl. now apply IH with t.
  - rewrite Eab. now apply N.compare_lt_iff in Lbc as ->.
  - rewrite <- Ebc. now apply N.compare_lt_iff in Lab as ->.
  - assert (N_of_ascii a < N_of_ascii c)%N as H by lia.
    now apply N.compare_lt_iff in H as ->.
Qed.

Lemma ltb_irrefl (s : string) : String.ltb s s = false.
Proof. unfold String.ltb. now rewrite string_compare_refl. Qed.

Lemma ltb_trans (s t u : string) :
  String.ltb s t = true -> String.ltb t u = true -> String.ltb s u = true.
Proof.
  unfold String.ltb. intros Hst Htu.
  destruct (String.compare s t) eqn:Est; try discriminate.
  destruct (String.compare t u) eqn:Etu; try discriminate.
  now rewrite (string_compare_lt_trans s t u Est Etu).
Qed.

Lemma ltb_asym (s t : string) :
  String.ltb s t = true -> String.ltb t s = false.
Proof.
  unfold String.ltb. rewrite (String.compare_antisym t s).
  now destruct (String.compare s t).
Qed.

Lemma ltb_total (s t : string) :
  s <> t -> String.ltb s t = true \/ String.ltb t s = true.
Proof.
  intros Hne. unfold String.ltb. rewrite (String.compare_antisym t s).
  destruct (String.compare s t) eqn:E; simpl; auto.
  apply String.compare_eq_iff in E. congruence.
Qed.

Lemma ltb_false_leb (s t : string) :
  String.ltb t s = false <-> String.leb s t = true.
Proof.
  unfold String.ltb, String.leb. rewrite (String.compare_antisym t s).
  destruct (String.compare s t); simpl; split; congruence.
Qed.

(** ** Facts about [sequence] *)

Lemma sequence_Ok {A : Type} (l : list (result A)) (r : list A) :
  sequence l = Ok r <-> l = map Ok r.
Proof.
  revert r. induction l as [|c l IH]; intros r; simpl.
  - split; intros H.
    + now injection H as <-.
    + destruct r; [reflexivity|discriminate].
  - destruct c as [a|e]; simpl.
    + destruct (sequence l) as [r'|e] eqn:E; simpl.
      * split; intros H.
        -- injection H as <-. simpl. f_equal. now apply IH.
        -- destruct r as [|a' r]; [discriminate|].
           injection H as -> H. apply IH in H. congruence.
      * split; intros H; [discriminate|].
        destruct r as [|a' r]; [discriminate|].
        injection H as -> H. apply IH in H. discriminate.
    + split; intros H; [discriminate|].
      destruct r; discriminate.
Qed.

(** The items that [_normalize_dict] and the encoder build from sorted
    items whose values were computed without an exception. *)
Lemma sequence_items_Ok {B : Type}
  (s : list (string * result B)) (r : list (string * B)) :
  sequence (map (fun kc : string * result B =>
                   v' <- snd kc ;; Ok (fst kc, v')) s) = Ok r
  <-> s = map (fun kv => (fst kv, Ok (snd kv))) r.
Proof.
  rewrite sequence_Ok. revert r.
  induction s as [|[k c] s IH]; intros [|[k' b] r]; simpl;
    split; intros H; try reflexivity; try discriminate.
  - destruct c as [b0|e]; simpl in H; [|discriminate].
    injection H as -> -> H. f_equal. now apply IH.
  - injection H as -> -> H. simpl. f_equal. now apply IH.
Qed.

Lemma sequence_map_Ok {A B : Type} (f : A -> B) (l : list A) :
  sequence (map (fun x => Ok (f x)) l) = Ok (map f l).
Proof.
  induction l as [|x l IH]; simpl; [reflexivity|].
  now rewrite IH.
Qed.

Lemma sequence_Raise {A : Type} (l : list (result A)) (e : exn) :
  sequence l = Raise e -> In (Raise e) l.
Proof.
  induction l as [|c l IH]; simpl; [discriminate|].
  destruct c as [a|e']; simpl.
  - destruct (sequence l) as [r|e'']; simpl; [discriminate|].
    intros H; injection H as ->. right. now apply IH.
  - intros H; injection H as ->. now left.
Qed.

(** ** Facts about the sort *)

Section SortFacts.
Context {A : Type}.
Variable lt : A -> A -> result bool.
Variable ltb : A -> A -> bool.

Lemma insert_pure (x : A) (l : list A) :
  (forall y, In y l -> lt x y = Ok (ltb x y)) ->
  insert lt x l = Ok (pinsert ltb x l).
Proof.
  induction l as [|y l IH]; intros H; simpl; [reflexivity|].
  rewrite (H y (or_introl eq_refl)); simpl.
  destruct (ltb x y); [reflexivity|].
  rewrite IH; [reflexivity|].
  intros z Hz. apply H. now right.
Qed.

Lemma pinsert_perm (x : A) (l : list A) :
  Permutation (x :: l) (pinsert ltb x l).
Proof.
  induction l as [|y l IH]; simpl; [reflexivity|].
  destruct (ltb x y); [reflexivity|].
  rewrite perm_swap. now constructor.
Qed.

Lemma psort_into_perm (acc l : list A) :
  Permutation (acc ++ l) (psort_into ltb acc l).
Proof.
  revert acc. induction l as [|x l IH]; intros acc; simpl.
  - now rewrite app_nil_r.
  - rewrite <- IH. rewrite <- Permutation_middle.
    exact (Permutation_app_tail l (pinsert_perm x acc)).
Qed.

Lemma psort_perm (l : list A) : Permutation l (psort ltb l).
Proof. exact (psort_into_perm [] l). Qed.

Lemma insert_perm (x : A) (l r : list A) :
  insert lt x l = Ok r -> Permutation (x :: l) r.
Proof.
  revert r. induction l as [|y l IH]; intros r; simpl.
  - intros H; injection H as <-. reflexivity.
  - destruct (lt x y) as [[|]|e]; simpl; try discriminate.
    + intros H; injection H as <-. reflexivity.
    + destruct (insert lt x l) as [r'|e]; simpl; [|discriminate].
      intros H; injection H as <-.
      rewrite perm_swap. constructor. now apply IH.
Qed.

Lemma sort_into_perm (acc l r : list A) :
  sort_into lt acc l = Ok r -> Permutation (acc ++ l) r.
Proof.
  revert acc. induction l as [|x l IH]; intros acc; simpl.
  - intros H; injection H as <-. now rewrite app_nil_r.
  - destruct (insert lt x acc) as [acc'|e] eqn:E; simpl; [|discriminate].
    intros H. apply IH in H. rewrite <- H.
    rewrite <- Permutation_middle.
    exact (Permutation_app_tail l (insert_perm x acc acc' E)).
Qed.

(** An insertion into a list that is not empty compares the new element
    with the first one. *)
Lemma insert_compares (x y : A) (l r : list A) :
  insert lt x (y :: l) = Ok r -> exists b, lt x y = Ok b.
Proof.
  simpl. destruct (lt x y) as [b|e]; simpl; [eauto|discriminate].
Qed.

(** Where every comparison among elements that satisfy [P] is defined,
    [sorted] is the pure sort. *)
Section Agree.
Variable P : A -> Prop.
Hypothesis lt_defined : forall x y, P x -> P y -> lt x y = Ok (ltb x y).

Lemma sort_into_pure (acc l : list A) :
  Forall P acc -> Forall P l ->
  sort_into lt acc l = Ok (psort_into ltb acc l).
Proof.
  revert acc. induction l as [|x l IH]; intros acc Hacc Hl; simpl.
  - reflexivity.
  - inversion Hl as [|? ? Hx Hl']; subst.
    rewrite insert_pure; simpl.
    + apply IH; [|assumption].
      rewrite <- pinsert_perm. now constructor.
    + intros y Hy. apply lt_defined; [assumption|].
      rewrite Forall_forall in Hacc. now apply Hacc.
Qed.

(** The pure sort orders its result, given that [ltb] is asymmetric and
    its complement transitive on [P]. *)
Hypothesis ltb_asymmetric :
  forall x y, P x -> P y -> ltb x y = true -> ltb y x = false.
Hypothesis geb_transitive :
  forall x y z, P x -> P y -> P z ->
    ltb y x = false -> ltb z y = false -> ltb z x = false.

Lemma pinsert_sorted (x : A) (l : list A) :
  P x -> Forall P l ->
  StronglySorted (not_after ltb) l ->
  StronglySorted (not_after ltb) (pinsert ltb x l).
Proof.
  intros Hx. induction l as [|y l IH]; intros HP Hs; simpl.
  - repeat constructor.
  - inversion HP as [|? ? Hy HP']; subst.
    inversion Hs as [|? ? Hs' Hall]; subst.
    destruct (ltb x y) eqn:E.
    + constructor; [assumption|].
      assert (not_after ltb x y) as Hxy by (now apply ltb_asymmetric).
      constructor; [assumption|].
      rewrite Forall_forall in *. intros z Hz.
      apply (geb_transitive x y z); auto.
      now apply Hall.
    + constructor; [now apply IH|].
      rewrite <- pinsert_perm. now constructor.
Qed.

Lemma psort_into_sorted (acc l : list A) :
  Forall P acc -> Forall P l ->
  StronglySorted (not_after ltb) acc ->
  StronglySorted (not_after ltb) (psort_into ltb acc l).
Proof.
  revert acc. induction l as [|x l IH]; intros acc Hacc Hl Hs; simpl.
  - assumption.
  - inversion Hl; subst. apply IH; [|assumption|].
    + rewrite <- pinsert_perm. now constructor.
    + now apply pinsert_sorted.
Qed.
End Agree.

End SortFacts.

(** Sorting commutes with a map that preserves the comparison. *)
Lemma pinsert_map {A B : Type} (f : A -> B)
  (ltA : A -> A -> bool) (ltB : B -> B -> bool) :
  (forall x y, ltA x y = ltB (f x) (f y)) ->
  forall x l, map f (pinsert ltA x l) = pinsert ltB (f x) (map f l).
Proof.
  intros H x l. induction l as [|y l IH]; simpl; [reflexivity|].
  rewrite <- H. destruct (ltA x y); simpl; [reflexivity|].
  now rewrite IH.
Qed.

Lemma psort_into_map {A B : Type} (f : A -> B)
  (ltA : A -> A -> bool) (ltB : B -> B -> bool) :
  (forall x y, ltA x y = ltB (f x) (f y)) ->
  forall l acc,
    map f (psort_into ltA acc l) = psort_into ltB (map f acc) (map f l).
Proof.
  intros H l. induction l as [|x l IH]; intros acc; simpl; [reflexivity|].
  rewrite IH. now rewrite (pinsert_map f ltA ltB H).
Qed.

(** *** Sorting items by distinct keys *)

Section KeySort.
Context {X : Type}.
Implicit Types (x y : string * X) (l acc : list (string * X)).

Lemma pinsert_comm x y l :
  fst x <> fst y ->
  pinsert key_ltb x (pinsert key_ltb y l)
  = pinsert key_ltb y (pinsert key_ltb x l).
Proof.
  intros Hne. induction l as [|z l IH]; simpl.
  - destruct (ltb_total _ _ Hne) as [H|H]; unfold key_ltb;
      rewrite H, (ltb_asym _ _ H); reflexivity.
  - destruct (key_ltb y z) eqn:Eyz, (key_ltb x z) eqn:Exz; simpl;
      rewrite ?Eyz, ?Exz.
    + destruct (ltb_total _ _ Hne) as [H|H]; unfold key_ltb;
        rewrite H, (ltb_asym _ _ H); reflexivity.
    + assert (key_ltb x y = false) as Exy.
      { unfold key_ltb in *.
        destruct (String.ltb (fst x) (fst y)) eqn:E; [|reflexivity].
        now rewrite (ltb_trans _ _ _ E Eyz) in Exz. }
      now rewrite Exy.
    + assert (key_ltb y x = false) as Eyx.
      { unfold key_ltb in *.
        destruct (String.ltb (fst y) (fst x)) eqn:E; [|reflexivity].
        now rewrite (ltb_trans _ _ _ E Exz) in Eyz. }
      now rewrite Eyx.
    + now rewrite IH.
Qed.

Lemma psort_into_permuted l l' :
  Permutation l l' -> NoDup (map fst l) ->
  forall acc, psort_into key_ltb acc l = psort_into key_ltb acc l'.
Proof.
  induction 1 as [|x l l' HP IH|x y l|l l' l'' HP1 IH1 HP2 IH2];
    intros Hnd acc; simpl.
  - reflexivity.
  - inversion Hnd; subst. now apply IH.
  - inversion Hnd as [|? ? Hy Hnd']; subst.
    rewrite pinsert_comm; [reflexivity|].
    intros E. apply Hy. simpl. now left.
  - rewrite IH1 by assumption. apply IH2.
    eapply Permutation_NoDup; [|exact Hnd].
    now apply Permutation_map.
Qed.

Lemma psort_permuted l l' :
  Permutation l l' -> NoDup (map fst l) ->
  psort key_ltb l = psort key_ltb l'.
Proof. intros HP Hnd. now apply psort_into_permuted. Qed.
End KeySort.

(** *** Sorting the items of a dict *)

Lemma item_lt_keys {R : Type} (x y : string * value * R) :
  fst (fst x) <> fst (fst y) ->
  item_lt x y = Ok (key_ltb (fst x) (fst y)).
Proof.
  destruct x as [[k1 v1] r1], y as [[k2 v2] r2]; simpl. intros Hne.
  apply String.eqb_neq in Hne. now rewrite Hne.
Qed.

Lemma sort_into_items_pure {R : Type} (l acc : list (string * value * R)) :
  NoDup (map (fun it => fst (fst it)) (acc ++ l)) ->
  sort_into item_lt acc l
  = Ok (psort_into (fun x y => key_ltb (fst x) (fst y)) acc l).
Proof.
  revert acc. induction l as [|x l IH]; intros acc Hnd; simpl.
  - reflexivity.
  - assert (Permutation (acc ++ x :: l) (x :: acc ++ l)) as HP
        by (symmetry; apply Permutation_middle).
    assert (NoDup (map (fun it => fst (fst it)) (x :: acc ++ l))) as Hnd'.
    { eapply Permutation_NoDup; [|exact Hnd]. now apply Permutation_map. }
    rewrite (insert_pure item_lt (fun x y => key_ltb (fst x) (fst y))); simpl.
    + apply IH.
      eapply Permutation_NoDup; [|exact Hnd'].
      apply Permutation_map.
      exact (Permutation_app_tail l (pinsert_perm _ x acc)).
    + intros y Hy. apply item_lt_keys. intros E.
      inversion Hnd' as [|? ? Hx _]; subst. apply Hx.
      rewrite map_app, in_app_iff. left.
      rewrite E. now apply (in_map (fun it => fst (fst it))).
Qed.

(** With distinct keys, sorting the items never raises and orders them by
    key, whatever is attached to them. *)
Lemma sorted_items {R : Type} (c : value -> R) (d : list (string * value)) :
  NoDup (map fst d) ->
  exists s,
    sorted item_lt (map (fun kv => (fst kv, snd kv, c (snd kv))) d) = Ok s
    /\ map (fun it : string * value * R => (fst (fst it), snd it)) s
       = psort key_ltb (map (fun kv => (fst kv, c (snd kv))) d).
Proof.
  intros Hnd. eexists. split.
  - unfold sorted. apply sort_into_items_pure.
    simpl. now rewrite map_map.
  - unfold psort.
    rewrite (psort_into_map
               (fun it : string * value * R => (fst (fst it), snd it))
               (fun x y => key_ltb (fst x) (fst y)) key_ltb)
      by reflexivity.
    simpl. now rewrite map_map.
Qed.

(** ** Facts about [_normalize_dict] *)

Import BacktestHashGenerator.

Lemma normalize_items (d : list (string * value)) :
  (fix go (d : list (string * value))
     : list (string * value * result value) :=
     match d with
     | [] => []
     | (key, v) :: d' => (key, v, _normalize_dict v) :: go d'
     end) d
  = map (fun kv => (fst kv, snd kv, _normalize_dict (snd kv))) d.
Proof.
  induction d as [|[k v] d IH]; simpl; [reflexivity|]. now rewrite IH.
Qed.

Lemma normalize_elements (l : list value) :
  (fix go (l : list value) : list (result value) :=
     match l with
     | [] => []
     | item :: l' => _normalize_dict item :: go l'
     end) l
  = map _normalize_dict l.
Proof.
  induction l as [|x l IH]; simpl; [reflexivity|]. now rewrite IH.
Qed.

(** The value of [_normalize_dict] on a dict of distinct keys. *)
Lemma normalize_dict_eq (d : list (string * value)) :
  NoDup (map fst d) ->
  _normalize_dict (VDict d)
  = r <- sequence
           (map (fun kc : string * result value =>
                   v' <- snd kc ;; Ok (fst kc, v'))
              (psort key_ltb
                 (map (fun kv => (fst kv, _normalize_dict (snd kv))) d))) ;;
    Ok (VDict r).
Proof.
  intros Hnd. simpl. rewrite normalize_items.
  destruct (sorted_items _normalize_dict d Hnd) as (s & -> & Hs).
  simpl. rewrite <- Hs, map_map. reflexivity.
Qed.

(** The value of [_normalize_dict] on a list. *)
Lemma normalize_list_eq (l : list value) :
  _normalize_dict (VList l)
  = match (items <- sequence (map _normalize_dict l) ;;
           sorted py_lt items) with
    | Ok s => Ok (VList s)
    | Raise e =>
        if is_TypeError e then Raise TypeError_unsortable else Raise e
    end.
Proof. simpl. now rewrite normalize_elements. Qed.

Lemma Forall2_map_eq {A B : Type} (f g : A -> B) (l l' : list A) :
  Forall2 (fun x y => g y = f x) l l' -> map g l' = map f l.
Proof. induction 1; simpl; congruence. Qed.

Lemma Forall2_weaken {A B : Type} (P : A -> Prop) (R S : A -> B -> Prop)
  (l : list A) (l' : list B) :
  Forall P l -> Forall2 R l l' ->
  (forall x y, P x -> R x y -> S x y) -> Forall2 S l l'.
Proof.
  intros HP HR Himp. induction HR; inversion HP; subst; constructor; auto.
Qed.

(** Listing the items of dicts in another order does not change what
    [_normalize_dict] returns or raises. *)
Lemma normalize_key_perm (v : value) :
  wf v -> forall v', key_perm v v' -> _normalize_dict v' = _normalize_dict v.
Proof.
  induction v as [| | | | |l IH|d IH] using value_ind';
    intros Hwf v' Hkp; inversion Hkp; subst; try reflexivity.
  - (* lists *)
    rewrite !normalize_list_eq.
    replace (map _normalize_dict l') with (map _normalize_dict l);
      [reflexivity|].
    symmetry. apply Forall2_map_eq.
    inversion Hwf as [| | | | |? Hl|]; subst.
    eapply Forall2_weaken;
      [exact (Forall_and Hl IH)|eassumption|].
    intros x y [Hx IHx] Hxy. now apply IHx.
  - (* dicts *)
    inversion Hwf as [| | | | | |? Hnd Hd]; subst.
    match goal with
    | HP : Permutation d ?d1, HF : Forall2 _ ?d1 ?d' |- _ =>
        rename HP into Hperm; rename HF into Hrel
    end.
    assert (map fst d' = map fst d1) as Hkeys.
    { apply Forall2_map_eq.
      eapply Forall2_weaken; [apply Forall_forall; intros; exact I
                             |exact Hrel|].
      intros x y _ [E _]. now symmetry. }
    assert (NoDup (map fst d1)) as Hnd1.
    { eapply Permutation_NoDup; [|exact Hnd]. now apply Permutation_map. }
    rewrite !normalize_dict_eq by (assumption || now rewrite Hkeys).
    assert (map (fun kv => (fst kv, _normalize_dict (snd kv))) d'
            = map (fun kv => (fst kv, _normalize_dict (snd kv))) d1) as ->.
    { apply Forall2_map_eq.
      eapply Forall2_weaken;
        [exact (Permutation_Forall Hperm (Forall_and Hd IH))|exact Hrel|].
      intros x y [Hx IHx] [E Hxy]. simpl.
      now rewrite E, (IHx Hx _ Hxy). }
    rewrite (psort_permuted
               (map (fun kv => (fst kv, _normalize_dict (snd kv))) d)
               (map (fun kv => (fst kv, _normalize_dict (snd kv))) d1)).
    + reflexivity.
    + now apply Permutation_map.
    + now rewrite map_map.
Qed.
(** [_normalize_dict] keeps the keys of every dict distinct. *)
Lemma normalize_wf (v : value) :
  wf v -> forall n, _normalize_dict v = Ok n -> wf n.
Proof.
  induction v as [| | | | |l IH|d IH] using value_ind';
    intros Hwf n Hn; try (injection Hn as <-; assumption).
  - (* lists *)
    rewrite normalize_list_eq in Hn.
    destruct (sequence (map _normalize_dict l)) as [items|e] eqn:Eseq;
      simpl in Hn; [|destruct (is_TypeError e); discriminate].
    destruct (sorted py_lt items) as [s|e] eqn:Esort;
      [|destruct (is_TypeError e); discriminate].
    injection Hn as <-. constructor.
    apply sort_into_perm in Esort. simpl in Esort.
    eapply Permutation_Forall; [exact Esort|].
    apply sequence_Ok in Eseq.
    inversion Hwf as [| | | | |? Hl|]; subst.
    apply Forall_forall. intros x' Hx'.
    apply (in_map Ok) in Hx'. rewrite <- Eseq in Hx'.
    apply in_map_iff in Hx' as (x & Hx & Hin).
    rewrite Forall_forall in IH, Hl. eapply IH; eauto.
  - (* dicts *)
    inversion Hwf as [| | | | | |? Hnd Hd]; subst.
    rewrite normalize_dict_eq in Hn by assumption.
    destruct (sequence _) as [r|e] eqn:Eseq in Hn; [|discriminate].
    injection Hn as <-.
    apply sequence_items_Ok in Eseq.
    pose proof (psort_perm key_ltb
      (map (fun kv => (fst kv, _normalize_dict (snd kv))) d)) as HP.
    rewrite Eseq in HP.
    constructor.
    + apply (Permutation_map fst) in HP.
      rewrite !map_map in HP. simpl in HP.
      eapply Permutation_NoDup; [exact HP|assumption].
    + apply Forall_forall. intros kv Hin.
      apply (in_map (fun kv => (fst kv, Ok (snd kv)))) in Hin.
      apply (Permutation_in _ (Permutation_sym HP)) in Hin.
      apply in_map_iff in Hin as (kv0 & E & Hin0).
      injection E as _ E.
      rewrite Forall_forall in IH, Hd. eapply IH; eauto.
Qed.

Lemma json_elements float_repr (l : list value) :
  (fix go (l : list value) : list (result string) :=
     match l with
     | [] => []
     | item :: l' => json_dumps float_repr item :: go l'
     end) l
  = map (json_dumps float_repr) l.
Proof.
  induction l as [|x l IH]; simpl; [reflexivity|]. now rewrite IH.
Qed.

Lemma json_items float_repr (d : list (string * value)) :
  (fix go (d : list (string * value))
     : list (string * value * result string) :=
     match d with
     | [] => []
     | (key, v) :: d' => (key, v, json_dumps float_repr v) :: go d'
     end) d
  = map (fun kv => (fst kv, snd kv, json_dumps float_repr (snd kv))) d.
Proof.
  induction d as [|[k v] d IH]; simpl; [reflexivity|]. now rewrite IH.
Qed.

Lemma serialize_elements float_repr (l : list value) :
  (fix go (l : list value) : list string :=
     match l with
     | [] => []
     | x :: l' => serialize float_repr x :: go l'
     end) l
  = map (serialize float_repr) l.
Proof.
  induction l as [|x l IH]; simpl; [reflexivity|]. now rewrite IH.
Qed.

Lemma serialize_items float_repr (d : list (string * value)) :
  (fix go (d : list (string * value)) : list (string * string) :=
     match d with
     | [] => []
     | (k, x) :: d' => (k, serialize float_repr x) :: go d'
     end) d
  = map (fun kv => (fst kv, serialize float_repr (snd kv))) d.
Proof.
  induction d as [|[k v] d IH]; simpl; [reflexivity|]. now rewrite IH.
Qed.

Lemma json_dumps_list_eq float_repr (l : list value) :
  json_dumps float_repr (VList l)
  = parts <- sequence (map (json_dumps float_repr) l) ;;
    Ok ("[" ++ String.concat "," parts ++ "]").
Proof. simpl. now rewrite json_elements. Qed.

Lemma json_dumps_dict_eq float_repr (d : list (string * value)) :
  NoDup (map fst d) ->
  json_dumps float_repr (VDict d)
  = parts <- sequence
               (map (fun kc : string * result string =>
                       t <- snd kc ;;
                       Ok (encode_basestring_ascii (fst kc) ++ ":" ++ t))
                  (psort key_ltb
                     (map (fun kv => (fst kv, json_dumps float_repr (snd kv)))
                        d))) ;;
    Ok ("{" ++ String.concat "," parts ++ "}").
Proof.
  intros Hnd. simpl. rewrite json_items.
  destruct (sorted_items (json_dumps float_repr) d Hnd) as (s & -> & Hs).
  simpl. rewrite <- Hs, map_map. reflexivity.
Qed.

Lemma serialize_list_eq float_repr (l : list value) :
  serialize float_repr (VList l)
  = "[" ++ String.concat "," (map (serialize float_repr) l) ++ "]".
Proof. simpl. now rewrite serialize_elements. Qed.

Lemma serialize_dict_eq float_repr (d : list (string * value)) :
  serialize float_repr (VDict d)
  = "{" ++ String.concat ","
             (map (fun kt : string * string =>
                     encode_basestring_ascii (fst kt) ++ ":" ++ snd kt)
                (psort key_ltb
                   (map (fun kv => (fst kv, serialize float_repr (snd kv)))
                      d))) ++ "}".
Proof. simpl. now rewrite serialize_items. Qed.

(** On a well-formed value the encoder does not raise, and writes the
    serialization of the specification. *)
Lemma json_dumps_serialize float_repr (v : value) :
  wf v -> json_dumps float_repr v = Ok (serialize float_repr v).
Proof.
  induction v as [|[|]| | | |l IH|d IH] using value_ind';
    intros Hwf; try reflexivity.
  - (* lists *)
    inversion Hwf as [| | | | |? Hl|]; subst.
    rewrite json_dumps_list_eq, serialize_list_eq.
    replace (map (json_dumps float_repr) l)
      with (map (fun x => Ok (serialize float_repr x)) l).
    + now rewrite sequence_map_Ok.
    + apply map_ext_in. intros x Hx.
      rewrite Forall_forall in IH, Hl. symmetry. auto.
  - (* dicts *)
    inversion Hwf as [| | | | | |? Hnd Hd]; subst.
    rewrite json_dumps_dict_eq, serialize_dict_eq by assumption.
    replace (map (fun kv => (fst kv, json_dumps float_repr (snd kv))) d)
      with (map (fun kt : string * string => (fst kt, Ok (snd kt)))
              (map (fun kv => (fst kv, serialize float_repr (snd kv))) d)).
    2:{ rewrite map_map. apply map_ext_in. intros kv Hin. simpl.
        rewrite Forall_forall in IH, Hd. now rewrite IH by auto. }
    unfold psort.
    change (@nil (string * result string))
      with (map (fun kt : string * string => (fst kt, Ok (snd kt))) []).
    rewrite <- (psort_into_map
                  (fun kt : string * string => (fst kt, Ok (snd kt)))
                  key_ltb key_ltb) by reflexivity.
    rewrite map_map.
    exact (f_equal (fun p => parts <- p ;;
                             Ok ("{" ++ String.concat "," parts ++ "}"))
             (sequence_map_Ok _ _)).
Qed.

(** ** Exceptions of the comparison and of the sort *)

Lemma py_lt_raises (a b : value) (e : exn) :
  py_lt a b = Raise e -> is_TypeError e = true.
Proof.
  revert b.
  induction a as [| | | | |l IH|d IH] using value_ind';
    intros [| | | | |m|d']; simpl;
    try discriminate; try (intros H; injection H as <-; reflexivity).
  revert m. induction l as [|x l IHl]; intros [|y m];
    try discriminate.
  inversion IH as [|? ? Hx IH']; subst.
  destruct (py_eq x y); [now apply IHl|apply Hx].
Qed.

Lemma item_lt_raises {R : Type} (x y : string * value * R) (e : exn) :
  item_lt x y = Raise e -> is_TypeError e = true.
Proof.
  destruct x as [[k1 v1] r1], y as [[k2 v2] r2]; simpl.
  destruct (String.eqb k1 k2); [|discriminate].
  destruct (py_eq v1 v2); [discriminate|apply py_lt_raises].
Qed.

Section SortRaises.
Context {A : Type}.
Variable lt : A -> A -> result bool.

Lemma insert_Raise (x : A) (l : list A) (e : exn) :
  insert lt x l = Raise e -> exists y, lt x y = Raise e.
Proof.
  induction l as [|y l IH]; simpl; [discriminate|].
  destruct (lt x y) as [[|]|e'] eqn:E; simpl.
  - discriminate.
  - destruct (insert lt x l) as [r|e'']; simpl; [discriminate|].
    intros H; injection H as ->. now apply IH.
  - intros H; injection H as ->. eauto.
Qed.

Lemma sort_into_Raise (acc l : list A) (e : exn) :
  sort_into lt acc l = Raise e -> exists x y, lt x y = Raise e.
Proof.
  revert acc. induction l as [|x l IH]; intros acc; simpl; [discriminate|].
  destruct (insert lt x acc) as [acc'|e'] eqn:E; simpl.
  - apply IH.
  - intros H; injection H as ->. apply insert_Raise in E. eauto.
Qed.

(** A sort that returns has compared every element it placed into a list
    that was not empty: when a comparison is defined only inside a class,
    all the elements are of one class. *)
Variable C : Type.
Variable cls : A -> C.
Hypothesis lt_same_class : forall x y b, lt x y = Ok b -> cls x = cls y.

Lemma sort_into_same_class (acc l r : list A) :
  sort_into lt acc l = Ok r ->
  (forall a b, In a acc -> In b acc -> cls a = cls b) ->
  forall a b, In a (acc ++ l) -> In b (acc ++ l) -> cls a = cls b.
Proof.
  revert acc. induction l as [|x l IH]; intros acc Hs Hacc a b.
  - rewrite app_nil_r. apply Hacc.
  - simpl in Hs.
    destruct (insert lt x acc) as [acc'|e] eqn:E; simpl in Hs;
      [|discriminate].
    pose proof (insert_perm lt x acc acc' E) as HP.
    assert (forall a b, In a acc' -> In b acc' -> cls a = cls b) as Hacc'.
    { assert (forall y, In y acc -> cls x = cls y) as Hx.
      { destruct acc as [|y0 acc0]; [intros y []|].
        destruct (insert_compares lt x y0 acc0 acc' E) as [b0 Hb0].
        intros y Hy. rewrite (lt_same_class _ _ _ Hb0).
        apply Hacc; [now left|assumption]. }
      intros a' b' Ha' Hb'.
      apply (Permutation_in _ (Permutation_sym HP)) in Ha', Hb'.
      destruct Ha' as [<-|Ha'], Hb' as [<-|Hb']; auto.
      symmetry; auto. }
    specialize (IH acc' Hs Hacc' a b).
    intros Ha Hb. apply IH.
    + eapply Permutation_in; [|exact Ha].
      rewrite <- Permutation_middle.
      exact (Permutation_app_tail l HP).
    + eapply Permutation_in; [|exact Hb].
      rewrite <- Permutation_middle.
      exact (Permutation_app_tail l HP).
Qed.
End SortRaises.

Lemma py_lt_same_class (a b : value) (r : bool) :
  py_lt a b = Ok r -> class_of a = class_of b.
Proof.
  destruct a, b; simpl; try discriminate; reflexivity.
Qed.

Lemma normalize_class (v n : value) :
  _normalize_dict v = Ok n -> class_of n = class_of v.
Proof.
  destruct v as [| | | | |l|d]; try (intros H; injection H as <-; reflexivity).
  - rewrite normalize_list_eq.
    destruct (_ <- _ ;; _) as [s|e]; [|destruct (is_TypeError e); discriminate].
    intros H; injection H as <-. reflexivity.
  - simpl. destruct (sorted _ _) as [s|e]; simpl; [|discriminate].
    destruct (sequence _) as [r|e]; simpl; [|discriminate].
    intros H; injection H as <-. reflexivity.
Qed.

(** Every exception of [_normalize_dict] is a [TypeError]. *)
Lemma normalize_raises (v : value) (e : exn) :
  _normalize_dict v = Raise e -> is_TypeError e = true.
Proof.
  revert e.
  induction v as [| | | | |l IH|d IH] using value_ind'; intros e;
    try discriminate.
  - rewrite normalize_list_eq.
    destruct (sequence (map _normalize_dict l)) as [items|e0] eqn:E; simpl.
    + destruct (sorted py_lt items) as [s|e1] eqn:Es; [discriminate|].
      apply sort_into_Raise in Es as (x & y & Hxy).
      rewrite (py_lt_raises _ _ _ Hxy).
      intros H; injection H as <-. reflexivity.
    + apply sequence_Raise in E.
      apply in_map_iff in E as (x & Hx & Hin).
      rewrite Forall_forall in IH. rewrite (IH x Hin e0 Hx).
      intros H; injection H as <-. reflexivity.
  - simpl. rewrite normalize_items.
    destruct (sorted item_lt _) as [s|e0] eqn:Es; simpl.
    + destruct (sequence _) as [r|e1] eqn:Eseq; simpl; [discriminate|].
      intros H; injection H as ->.
      apply sequence_Raise in Eseq.
      apply in_map_iff in Eseq as ([[k v] c] & Hc & Hin). simpl in Hc.
      destruct c as [n|e']; simpl in Hc; [discriminate|].
      injection Hc as ->.
      apply sort_into_perm in Es. simpl in Es.
      apply (Permutation_in _ (Permutation_sym Es)) in Hin.
      apply in_map_iff in Hin as (kv & Hkv & Hin).
      injection Hkv as _ _ Hkv.
      rewrite Forall_forall in IH. eapply IH; eauto.
    + intros H; injection H as ->.
      apply sort_into_Raise in Es as (x & y & Hxy).
      eapply item_lt_raises; eauto.
Qed.

(** ** The order of numbers and of strings *)

Lemma Qltb_lt (x y : Q) : Qltb x y = true <-> (x < y)%Q.
Proof. unfold Qltb, Qlt. apply Z.ltb_lt. Qed.

Lemma Qltb_ge (x y : Q) : Qltb y x = false <-> (x <= y)%Q.
Proof. unfold Qltb, Qle. apply Z.ltb_ge. Qed.

Lemma number_val (v : value) :
  is_number v = true -> exists q, num_val v = Some q.
Proof. destruct v; try discriminate; simpl; eauto. Qed.

Lemma py_lt_numbers (a b : value) (x y : Q) :
  num_val a = Some x -> num_val b = Some y -> py_lt a b = Ok (Qltb x y).
Proof.
  destruct a, b; simpl; try discriminate;
    intros Ha Hb; injection Ha as <-; injection Hb as <-; reflexivity.
Qed.

Lemma val_ltb_numbers (a b : value) (x y : Q) :
  num_val a = Some x -> num_val b = Some y -> val_ltb a b = Qltb x y.
Proof.
  intros Ha Hb. unfold val_ltb. now rewrite (py_lt_numbers a b x y).
Qed.

Lemma elt_le_numbers (a b : value) (x y : Q) :
  num_val a = Some x -> num_val b = Some y ->
  (elt_le a b <-> (x <= y)%Q).
Proof.
  destruct a, b; simpl; try discriminate;
    intros Ha Hb; injection Ha as <-; injection Hb as <-; reflexivity.
Qed.

Lemma string_val (v : value) :
  is_string v = true -> exists s, v = VStr s.
Proof. destruct v; try discriminate; eauto. Qed.

Lemma StronglySorted_weaken {A : Type} (P : A -> Prop) (R S : A -> A -> Prop)
  (l : list A) :
  (forall x y, P x -> P y -> R x y -> S x y) ->
  Forall P l -> StronglySorted R l -> StronglySorted S l.
Proof.
  intros Himp HP Hs. induction Hs as [|x l Hs IH Hall]; [constructor|].
  inversion HP as [|? ? Hx HP']; subst.
  constructor; [now apply IH|].
  rewrite Forall_forall in *. intros y Hy. apply Himp; auto.
Qed.

(** Sorting a list of numbers, and sorting a list of strings. *)
Lemma sorted_numbers (l : list value) :
  forallb is_number l = true ->
  sorted py_lt l = Ok (psort val_ltb l)
  /\ StronglySorted elt_le (psort val_ltb l).
Proof.
  intros Hl. rewrite forallb_forall, <- Forall_forall in Hl.
  split.
  - apply (sort_into_pure py_lt val_ltb (fun v => is_number v = true));
      [|constructor|assumption].
    intros a b Ha Hb.
    destruct (number_val a Ha) as [x Hx], (number_val b Hb) as [y Hy].
    now rewrite (py_lt_numbers a b x y), (val_ltb_numbers a b x y).
  - apply (StronglySorted_weaken (fun v => is_number v = true)
             (not_after val_ltb)).
    + intros a b Ha Hb.
      destruct (number_val a Ha) as [x Hx], (number_val b Hb) as [y Hy].
      unfold not_after.
      rewrite (val_ltb_numbers b a y x), (elt_le_numbers a b x y)
        by assumption.
      apply Qltb_ge.
    + eapply Permutation_Forall; [apply psort_perm|assumption].
    + apply (psort_into_sorted val_ltb (fun v => is_number v = true));
        [| |constructor|assumption|constructor].
      * intros a b Ha Hb.
        destruct (number_val a Ha) as [x Hx], (number_val b Hb) as [y Hy].
        rewrite (val_ltb_numbers a b x y), (val_ltb_numbers b a y x)
          by assumption.
        rewrite Qltb_lt, Qltb_ge. apply Qlt_le_weak.
      * intros a b c Ha Hb Hc.
        destruct (number_val a Ha) as [x Hx], (number_val b Hb) as [y Hy],
          (number_val c Hc) as [z Hz].
        rewrite (val_ltb_numbers b a y x), (val_ltb_numbers c b z y),
          (val_ltb_numbers c a z x) by assumption.
        rewrite !Qltb_ge. apply Qle_trans.
Qed.

Lemma sorted_strings (l : list value) :
  forallb is_string l = true ->
  sorted py_lt l = Ok (psort val_ltb l)
  /\ StronglySorted elt_le (psort val_ltb l).
Proof.
  intros Hl. rewrite forallb_forall, <- Forall_forall in Hl.
  split.
  - apply (sort_into_pure py_lt val_ltb (fun v => is_string v = true));
      [|constructor|assumption].
    intros a b Ha Hb.
    destruct (string_val a Ha) as [s ->], (string_val b Hb) as [t ->].
    reflexivity.
  - apply (StronglySorted_weaken (fun v => is_string v = true)
             (not_after val_ltb)).
    + intros a b Ha Hb.
      destruct (string_val a Ha) as [s ->], (string_val b Hb) as [t ->].
      unfold not_after, val_ltb. simpl. apply ltb_false_leb.
    + eapply Permutation_Forall; [apply psort_perm|assumption].
    + apply (psort_into_sorted val_ltb (fun v => is_string v = true));
        [| |constructor|assumption|constructor].
      * intros a b Ha Hb.
        destruct (string_val a Ha) as [s ->], (string_val b Hb) as [t ->].
        unfold val_ltb. simpl. apply ltb_asym.
      * intros a b c Ha Hb Hc.
        destruct (string_val a Ha) as [s ->], (string_val b Hb) as [t ->],
          (string_val c Hc) as [u ->].
        unfold val_ltb. simpl. intros Hts Hut.
        destruct (String.ltb u s) eqn:E; [|reflexivity].
        destruct (String.eqb_spec t u) as [->|Hne]; [congruence|].
        destruct (ltb_total t u Hne) as [Htu|Hut']; [|congruence].
        now rewrite (ltb_trans _ _ _ Htu E) in Hts.
Qed.

(** A number or a string is its own normal form. *)
Lemma normalize_scalar (v : value) :
  (is_number v || is_string v)%bool = true -> _normalize_dict v = Ok v.
Proof. destruct v; try discriminate; reflexivity. Qed.

(** A list of two or more mappings cannot be sorted: dicts define no
    order. *)
Lemma normalize_list_of_mappings_raises (x y : value) (l : list value) :
  is_mapping y = true ->
  _normalize_dict (VList (x :: y :: l)) = Raise TypeError_unsortable.
Proof.
  intros Hy. rewrite normalize_list_eq. simpl.
  destruct (_normalize_dict x) as [x'|e] eqn:Ex; simpl.
  2:{ now rewrite (normalize_raises x e Ex). }
  destruct (_normalize_dict y) as [y'|e] eqn:Ey; simpl.
  2:{ now rewrite (normalize_raises y e Ey). }
  destruct (sequence (map _normalize_dict l)) as [l'|e] eqn:El; simpl.
  2:{ apply sequence_Raise, in_map_iff in El as (z & Hz & _).
      now rewrite (normalize_raises z e Hz). }
  apply normalize_class in Ey.
  destruct y; try discriminate. destruct y'; try discriminate.
  unfold sorted. simpl. destruct x'; reflexivity.
Qed.


Lemma same_length_prefix (d s r r' : string) :
  String.length d = String.length s -> d ++ r = s ++ r' -> d = s.
Proof.
  revert s. induction d as [|c d IH]; intros [|c' s]; simpl;
    try discriminate; try reflexivity.
  intros Hl H. injection Hl as Hl. injection H as -> H.
  f_equal. now apply IH.
Qed.

(** ** The properties of the specification *)

(** C1. For every mapping on which canonicalization succeeds, and for
    every reordering of its keys at any nesting depth,
    [hash_strategy_config] returns the same digest for the mapping and
    for the reordered mapping. *)
Theorem hash_strategy_config_key_order
  (float_repr : Q -> string) (sha256_hexdigest : string -> string)
  (d d' : list (string * value)) :
  wf (VDict d) ->
  key_perm (VDict d) (VDict d') ->
  (exists n, _normalize_dict (VDict d) = Ok n) ->
  exists digest,
    hash_strategy_config float_repr sha256_hexdigest (VDict d) = Ok digest
    /\ hash_strategy_config float_repr sha256_hexdigest (VDict d')
       = Ok digest.
Proof.
  intros Hwf Hkp [n Hn].
  exists (sha256_hexdigest (serialize float_repr n)).
  unfold hash_strategy_config.
  rewrite (normalize_key_perm _ Hwf _ Hkp), Hn.
  unfold bind.
  rewrite (json_dumps_serialize float_repr n (normalize_wf _ Hwf _ Hn)).
  split; reflexivity.
Qed.

Lemma hash_strategy_config_key_order_witness :
  exists digest,
    hash_strategy_config (fun _ => "0.05") (fun s => s)
      (VDict [("fast", VInt 10);
              ("exit", VDict [("stop", VFloat (1 # 20)); ("bars", VInt 3)])])
    = Ok digest
    /\ hash_strategy_config (fun _ => "0.05") (fun s => s)
         (VDict [("exit", VDict [("bars", VInt 3); ("stop", VFloat (1 # 20))]);
                 ("fast", VInt 10)])
       = Ok digest.
Proof.
  apply hash_strategy_config_key_order.
  - constructor.
    + repeat constructor; simpl; intuition discriminate.
    + repeat constructor; simpl; intuition discriminate.
  - apply kp_Dict
      with (d1 := [("exit",
                    VDict [("stop", VFloat (1 # 20)); ("bars", VInt 3)]);
                   ("fast", VInt 10)]).
    + apply perm_swap.
    + constructor; [split; [reflexivity|]|].
      * apply kp_Dict
          with (d1 := [("bars", VInt 3); ("stop", VFloat (1 # 20))]).
        -- apply perm_swap.
        -- repeat constructor.
      * repeat constructor.
  - eexists. reflexivity.
Defined.

(** C2, as the code has it. For every list whose elements are all numbers,
    or all strings, canonicalization succeeds and returns the elements
    sorted: numbers by value, strings lexicographically.  A list of two
    or more mappings is not sorted: canonicalization raises the
    unsortable-list error. *)
Theorem normalize_homogeneous_list (l : list value) :
  (forallb is_number l = true \/ forallb is_string l = true ->
   exists r,
     _normalize_dict (VList l) = Ok (VList r)
     /\ Permutation l r
     /\ StronglySorted elt_le r)
  /\ (forallb is_mapping l = true -> (2 <= List.length l)%nat ->
      _normalize_dict (VList l) = Raise TypeError_unsortable).
Proof.
  split.
  - intros H.
    assert (map _normalize_dict l = map Ok l) as Hmap.
    { apply map_ext_in. intros x Hx. apply normalize_scalar.
      destruct H as [H|H]; rewrite forallb_forall in H;
        rewrite (H x Hx); [reflexivity|apply orb_true_r]. }
    exists (psort val_ltb l).
    rewrite normalize_list_eq, Hmap, (proj2 (sequence_Ok _ l) eq_refl).
    unfold bind.
    destruct H as [H|H];
      [destruct (sorted_numbers l H) as [-> Hs]
      |destruct (sorted_strings l H) as [-> Hs]];
      (split; [reflexivity|split; [apply psort_perm|exact Hs]]).
  - intros Hmap Hlen.
    destruct l as [|x [|y l]]; simpl in Hlen; try lia.
    apply normalize_list_of_mappings_raises.
    simpl in Hmap. now apply andb_prop in Hmap as [_ [Hy _]%andb_prop].
Qed.

Lemma normalize_homogeneous_list_witness :
  exists r,
    _normalize_dict (VList [VFloat (1 # 2); VInt 3; VBool true; VInt (-1)])
    = Ok (VList r)
    /\ Permutation [VFloat (1 # 2); VInt 3; VBool true; VInt (-1)] r
    /\ StronglySorted elt_le r.
Proof.
  apply (proj1 (normalize_homogeneous_list
                  [VFloat (1 # 2); VInt 3; VBool true; VInt (-1)])).
  left. reflexivity.
Defined.

(** C2, as the specification states it, fails: canonicalizing a list of
    two mappings raises the unsortable-list error. *)
Lemma normalize_list_of_mappings_counterexample :
  forallb is_mapping
    [VDict [("period", VInt 5)]; VDict [("period", VInt 9)]] = true
  /\ _normalize_dict
       (VList [VDict [("period", VInt 5)]; VDict [("period", VInt 9)]])
     = Raise TypeError_unsortable.
Proof. split; reflexivity. Qed.

(** C3. Canonicalizing a list that holds two elements of types between
    which no order is defined raises the unsortable-list error; it
    returns no list at all. *)
Theorem normalize_mixed_list_raises (l : list value) (x y : value) :
  In x l -> In y l -> class_of x <> class_of y ->
  _normalize_dict (VList l) = Raise TypeError_unsortable.
Proof.
  intros Hx Hy Hxy. rewrite normalize_list_eq.
  destruct (sequence (map _normalize_dict l)) as [items|e] eqn:Eseq;
    unfold bind.
  - destruct (sorted py_lt items) as [s|e] eqn:Es.
    + exfalso. apply sequence_Ok in Eseq.
      assert (forall v, In v l ->
                exists n, In n items /\ class_of n = class_of v) as Hcls.
      { intros v Hv. apply (in_map _normalize_dict) in Hv.
        rewrite Eseq in Hv. apply in_map_iff in Hv as (n & Hn & Hin).
        exists n. split; [assumption|]. now apply normalize_class. }
      destruct (Hcls x Hx) as (x' & Hx' & Ex), (Hcls y Hy) as (y' & Hy' & Ey).
      apply Hxy. rewrite <- Ex, <- Ey.
      apply (sort_into_same_class py_lt order_class class_of
               py_lt_same_class [] items s Es); simpl; tauto.
    + apply sort_into_Raise in Es as (a & b & Hab).
      now rewrite (py_lt_raises a b e Hab).
  - apply sequence_Raise, in_map_iff in Eseq as (z & Hz & _).
    now rewrite (normalize_raises z e Hz).
Qed.

Lemma normalize_mixed_list_raises_witness :
  _normalize_dict (VList [VInt 1; VStr "a"]) = Raise TypeError_unsortable.
Proof.
  apply (normalize_mixed_list_raises [VInt 1; VStr "a"] (VInt 1) (VStr "a")).
  - simpl. left. reflexivity.
  - simpl. right. left. reflexivity.
  - discriminate.
Defined.

Import Models.

(** The test of [__post_init__] accepts exactly the strings of 64
    characters. *)
Lemma validated_Ok (v : value) :
  (exists s, validated v = Ok s) <-> is_str64 v = true.
Proof.
  destruct v as [| | | |s| |]; simpl;
    try (split; [intros [? H]|intros H]; discriminate).
  destruct (Nat.eqb (String.length s) 64); simpl;
    split; eauto; try discriminate; intros [? H]; discriminate.
Qed.

Lemma validated_Raise (v : value) (e : exn) :
  validated v = Raise e -> e = ValueError_invalid_hash v /\ is_str64 v = false.
Proof.
  destruct v as [| | | |s| |]; simpl;
    try (intros H; injection H as <-; now split).
  destruct (Nat.eqb (String.length s) 64); simpl; [discriminate|].
  intros H; injection H as <-; now split.
Qed.

(** C4, as the code has it. Constructing a [BacktestIdentity] succeeds if
    and only if each of the four hashes is a string of exactly 64
    characters; otherwise it raises [ValueError] for the first argument,
    in the order data, strategy, params, master, that is not one. *)
Theorem BacktestIdentity_init_checks_length
  (data_hash strategy_hash params_hash master_hash : value) :
  ((exists i,
       BacktestIdentity_init data_hash strategy_hash params_hash master_hash
       = Ok i)
   <-> forallb is_str64 [data_hash; strategy_hash; params_hash; master_hash]
       = true)
  /\ (is_str64 data_hash = false ->
      BacktestIdentity_init data_hash strategy_hash params_hash master_hash
      = Raise (ValueError_invalid_hash data_hash))
  /\ (is_str64 data_hash = true -> is_str64 strategy_hash = false ->
      BacktestIdentity_init data_hash strategy_hash params_hash master_hash
      = Raise (ValueError_invalid_hash strategy_hash))
  /\ (is_str64 data_hash = true -> is_str64 strategy_hash = true ->
      is_str64 params_hash = false ->
      BacktestIdentity_init data_hash strategy_hash params_hash master_hash
      = Raise (ValueError_invalid_hash params_hash))
  /\ (is_str64 data_hash = true -> is_str64 strategy_hash = true ->
      is_str64 params_hash = true -> is_str64 master_hash = false ->
      BacktestIdentity_init data_hash strategy_hash params_hash master_hash
      = Raise (ValueError_invalid_hash master_hash)).
Proof.
  assert (forall v, is_str64 v = false ->
            validated v = Raise (ValueError_invalid_hash v)) as Hbad.
  { intros v Hv. destruct (validated v) as [t|e] eqn:E.
    - rewrite (proj1 (validated_Ok v)) in Hv by eauto. discriminate.
    - now apply validated_Raise in E as [-> _]. }
  assert (forall v, is_str64 v = true -> exists t, validated v = Ok t)
    as Hgood by (intros v; apply validated_Ok).
  unfold BacktestIdentity_init. cbn [forallb].
  destruct (is_str64 data_hash) eqn:Ed;
    [destruct (Hgood _ Ed) as [d Hd]|pose proof (Hbad _ Ed) as Hd];
    rewrite Hd;
    (destruct (is_str64 strategy_hash) eqn:Es;
     [destruct (Hgood _ Es) as [s Hs]|pose proof (Hbad _ Es) as Hs]);
    rewrite ?Hs;
    (destruct (is_str64 params_hash) eqn:Ep;
     [destruct (Hgood _ Ep) as [p Hp]|pose proof (Hbad _ Ep) as Hp]);
    rewrite ?Hp;
    (destruct (is_str64 master_hash) eqn:Em;
     [destruct (Hgood _ Em) as [m Hm]|pose proof (Hbad _ Em) as Hm]);
    rewrite ?Hm; cbn [bind andb];
    (split; [split; [intros [i H]; (reflexivity || discriminate)
                    |intros H; (discriminate || eauto)]|]);
    repeat split; intros; (reflexivity || discriminate).
Qed.

(** C4, as the specification states it, fails: a string of 64 characters
    that are not hexadecimal is accepted. *)
Lemma BacktestIdentity_init_hex_counterexample :
  is_hex64
    (VStr "zzzzzzzzzzzzzzzzzzzzzzzzzzzzzzzzzzzzzzzzzzzzzzzzzzzzzzzzzzzzzzzz")
  = false
  /\ exists i,
       BacktestIdentity_init
         (VStr "zzzzzzzzzzzzzzzzzzzzzzzzzzzzzzzzzzzzzzzzzzzzzzzzzzzzzzzzzzzzzzzz")
         (VStr "zzzzzzzzzzzzzzzzzzzzzzzzzzzzzzzzzzzzzzzzzzzzzzzzzzzzzzzzzzzzzzzz")
         (VStr "zzzzzzzzzzzzzzzzzzzzzzzzzzzzzzzzzzzzzzzzzzzzzzzzzzzzzzzzzzzzzzzz")
         (VStr "zzzzzzzzzzzzzzzzzzzzzzzzzzzzzzzzzzzzzzzzzzzzzzzzzzzzzzzzzzzzzzzz")
       = Ok i.
Proof. split; [reflexivity|eexists; reflexivity]. Qed.




(** The hypothesis on the hashes is needed: the delimiter is not escaped,
    so for texts that hold it the master hash does not tell the order.
    The data hash ["a:a"] with the strategy hash ["a"] and the data hash
    ["a"] with the strategy hash ["a:a"] are digested as the same
    text. *)
Lemma create_backtest_hash_delimiter_not_escaped :
  ~ (exists sha256_hexdigest : string -> string,
       forall data_hash strategy_hash params_hash : string,
         data_hash <> strategy_hash ->
         create_backtest_hash sha256_hexdigest
           data_hash strategy_hash params_hash
         <> create_backtest_hash sha256_hexdigest
              strategy_hash data_hash params_hash).
Proof.
  intros [sha H]. apply (H "a:a" "a" "c"); [discriminate|reflexivity].
Qed.

(** C6 does not hold of the code. With no request recorded [hit_rate]
    returns [0.0] through its guard, but [miss_rate], which has no guard
    of its own, returns [1.0 - 0.0], which is [1.0] and not 0. *)
Theorem rates_without_requests
  (int_true_divide : Z -> Z -> option Q) (float_sub : Q -> Q -> Q)
  (s : CacheStats) :
  total_requests s = 0 ->
  float_sub 1%Q 0%Q = 1%Q ->
  hit_rate int_true_divide s = Some 0%Q
  /\ miss_rate int_true_divide float_sub s = Some 1%Q.
Proof.
  intros H Hsub. unfold miss_rate, hit_rate. rewrite H. cbn [Z.eqb].
  now rewrite Hsub.
Qed.

Lemma rates_without_requests_witness :
  hit_rate (fun a b => Some (inject_Z a / inject_Z b)%Q) CacheStats_default
  = Some 0%Q
  /\ miss_rate (fun a b => Some (inject_Z a / inject_Z b)%Q) Qminus
       CacheStats_default
     = Some 1%Q.
Proof.
  apply (rates_without_requests
           (fun a b => Some (inject_Z a / inject_Z b)%Q) Qminus
           CacheStats_default);
    reflexivity.
Defined.

(** C7. [hash_parameters] and [hash_strategy_config] are one function,
    the [hashStructured] of the specification: on a value that
    canonicalization accepts, each returns the digest of the
    serialization of the canonical form, with the keys of every mapping
    in lexicographic order and [","] and [":"] as the only separators. *)
Theorem hash_parameters_is_hash_strategy_config
  (float_repr : Q -> string) (sha256_hexdigest : string -> string)
  (v n : value) :
  wf v ->
  _normalize_dict v = Ok n ->
  hash_parameters float_repr sha256_hexdigest v
  = hash_strategy_config float_repr sha256_hexdigest v
  /\ hash_strategy_config float_repr sha256_hexdigest v
     = hashStructured float_repr sha256_hexdigest v
  /\ hashStructured float_repr sha256_hexdigest v
     = Ok (sha256_hexdigest (serialize float_repr n)).
Proof.
  intros Hwf Hn. unfold hash_parameters, hash_strategy_config, hashStructured.
  rewrite Hn. unfold bind.
  rewrite (json_dumps_serialize float_repr n (normalize_wf v Hwf n Hn)).
  repeat split.
Qed.

Lemma hash_parameters_is_hash_strategy_config_witness :
  hash_parameters (fun _ => "0.002") (fun s => s)
    (VDict [("slippage", VList [VInt 2; VInt 1]); ("commission", VNone)])
  = hash_strategy_config (fun _ => "0.002") (fun s => s)
      (VDict [("slippage", VList [VInt 2; VInt 1]); ("commission", VNone)])
  /\ hash_strategy_config (fun _ => "0.002") (fun s => s)
       (VDict [("slippage", VList [VInt 2; VInt 1]); ("commission", VNone)])
     = hashStructured (fun _ => "0.002") (fun s => s)
         (VDict [("slippage", VList [VInt 2; VInt 1]); ("commission", VNone)])
  /\ hashStructured (fun _ => "0.002") (fun s => s)
       (VDict [("slippage", VList [VInt 2; VInt 1]); ("commission", VNone)])
     = Ok (serialize (fun _ => "0.002")
             (VDict [("commission", VNone);
                     ("slippage", VList [VInt 1; VInt 2])])).
Proof.
  apply (hash_parameters_is_hash_strategy_config
           (fun _ => "0.002") (fun s => s)
           (VDict [("slippage", VList [VInt 2; VInt 1]);
                   ("commission", VNone)])).
  - repeat constructor; simpl; intuition discriminate.
  - reflexivity.
Defined.

(** C8 does not hold of the code: [to_api_dict] reads the attribute
    [stats] of the results, which a [BacktestResult] does not have (its
    summary statistics are the field [summary]), so the call raises
    [AttributeError] for every record. *)
Theorem to_api_dict_raises
  (isoformat : datetime -> string) (self : BacktestRecord) :
  to_api_dict isoformat self = Raise (AttributeError "BacktestResult" "stats").
Proof. reflexivity. Qed.

(** C9. [mark_accessed] adds 1 to the access count and sets
    [last_accessed] to the time of the call, which advances it whenever
    that time is later than the one stored; the identity, the results
    and the other fields of the metadata keep their values. *)
Theorem mark_accessed_frame (now : datetime) (self : BacktestRecord) :
  access_count (metadata (BacktestRecord_mark_accessed now self))
  = access_count (metadata self) + 1
  /\ last_accessed (metadata (BacktestRecord_mark_accessed now self)) = now
  /\ (last_accessed (metadata self) < now ->
      last_accessed (metadata self)
      < last_accessed (metadata (BacktestRecord_mark_accessed now self)))
  /\ identity (BacktestRecord_mark_accessed now self) = identity self
  /\ results (BacktestRecord_mark_accessed now self) = results self
  /\ created_at (metadata (BacktestRecord_mark_accessed now self))
     = created_at (metadata self)
  /\ execution_time_seconds (metadata (BacktestRecord_mark_accessed now self))
     = execution_time_seconds (metadata self)
  /\ data_filename (metadata (BacktestRecord_mark_accessed now self))
     = data_filename (metadata self)
  /\ data_size_bytes (metadata (BacktestRecord_mark_accessed now self))
     = data_size_bytes (metadata self)
  /\ data_rows (metadata (BacktestRecord_mark_accessed now self))
     = data_rows (metadata self).
Proof. repeat split. intros H. exact H. Qed.

(** C10. Every [CacheStats] reached from a fresh one by [record_hit] and
    [record_miss] has as many requests as hits and misses together; each
    of the two operations adds 1 to the requests and to its own counter,
    leaves the other counter alone, and keeps the equation. *)
Theorem cache_stats_invariant (s : CacheStats) :
  reachable s ->
  cache_hits s + cache_misses s = total_requests s
  /\ (total_requests (record_hit s) = total_requests s + 1
      /\ cache_hits (record_hit s) = cache_hits s + 1
      /\ cache_misses (record_hit s) = cache_misses s)
  /\ (total_requests (record_miss s) = total_requests s + 1
      /\ cache_misses (record_miss s) = cache_misses s + 1
      /\ cache_hits (record_miss s) = cache_hits s)
  /\ cache_hits (record_hit s) + cache_misses (record_hit s)
     = total_requests (record_hit s)
  /\ cache_hits (record_miss s) + cache_misses (record_miss s)
     = total_requests (record_miss s).
Proof.
  intros Hs.
  assert (cache_hits s + cache_misses s = total_requests s) as Hinv.
  { induction Hs as [|s Hs IH|s Hs IH]; simpl; [reflexivity|lia|lia]. }
  simpl. repeat split; lia.
Qed.

Lemma cache_stats_invariant_witness :
  cache_hits (record_miss (record_hit CacheStats_default))
  + cache_misses (record_miss (record_hit CacheStats_default))
  = total_requests (record_miss (record_hit CacheStats_default)).
Proof.
  apply (cache_stats_invariant (record_miss (record_hit CacheStats_default))).
  apply reach_miss, reach_hit, reach_default.
Defined.

(** ** Further facts about the sort *)

(** A list in which no element is less than an earlier one is sorted
    already. *)
Lemma pinsert_last {A : Type} (ltb : A -> A -> bool) (x : A) (l : list A) :
  (forall y, In y l -> ltb x y = false) -> pinsert ltb x l = (l ++ [x])%list.
Proof.
  induction l as [|y l IH]; intros H; simpl; [reflexivity|].
  rewrite (H y (or_introl eq_refl)). rewrite IH; [reflexivity|].
  intros z Hz. apply H. now right.
Qed.

Lemma psort_into_sorted_id {A : Type} (ltb : A -> A -> bool)
  (l acc : list A) :
  StronglySorted (not_after ltb) (acc ++ l) ->
  psort_into ltb acc l = (acc ++ l)%list.
Proof.
  revert acc. induction l as [|x l IH]; intros acc Hs; simpl.
  - now rewrite app_nil_r.
  - rewrite pinsert_last.
    + rewrite IH; rewrite <- app_assoc; [reflexivity|exact Hs].
    + intros y Hy. clear IH.
      induction acc as [|a acc IHa]; [destruct Hy|].
      simpl in Hs. inversion Hs as [|? ? Hs' Hall]; subst.
      destruct Hy as [->|Hy]; [|now apply IHa].
      rewrite Forall_forall in Hall. apply Hall.
      apply in_or_app. right. now left.
Qed.

Lemma psort_sorted_id {A : Type} (ltb : A -> A -> bool) (l : list A) :
  StronglySorted (not_after ltb) l -> psort ltb l = l.
Proof. intros Hs. exact (psort_into_sorted_id ltb l [] Hs). Qed.

(** The sort of a list without ties does not depend on the order in which
    the elements are given. *)
Section TotalSort.
Context {A : Type}.
Variable ltb : A -> A -> bool.
Variable P : A -> Prop.
Hypothesis ltb_asymmetric :
  forall x y, P x -> P y -> ltb x y = true -> ltb y x = false.
Hypothesis ltb_transitive :
  forall x y z, P x -> P y -> P z ->
    ltb x y = true -> ltb y z = true -> ltb x z = true.

Lemma pinsert_swap (x y : A) (l : list A) :
  P x -> P y -> Forall P l ->
  ltb x y = true \/ ltb y x = true \/ x = y ->
  pinsert ltb x (pinsert ltb y l) = pinsert ltb y (pinsert ltb x l).
Proof.
  intros Hx Hy Hl Hxy.
  destruct Hxy as [Hxy|[Hxy| ->]]; [| |reflexivity].
  - induction l as [|z l IH]; simpl.
    + now rewrite Hxy, (ltb_asymmetric x y Hx Hy Hxy).
    + inversion Hl as [|? ? Hz Hl']; subst.
      destruct (ltb y z) eqn:Eyz, (ltb x z) eqn:Exz; simpl;
        rewrite ?Eyz, ?Exz, ?Hxy, ?(ltb_asymmetric x y Hx Hy Hxy);
        simpl; rewrite ?Eyz, ?Exz; try reflexivity.
      * now rewrite (ltb_transitive x y z Hx Hy Hz Hxy Eyz) in Exz.
      * now rewrite IH.
  - induction l as [|z l IH]; simpl.
    + now rewrite Hxy, (ltb_asymmetric y x Hy Hx Hxy).
    + inversion Hl as [|? ? Hz Hl']; subst.
      destruct (ltb y z) eqn:Eyz, (ltb x z) eqn:Exz; simpl;
        rewrite ?Eyz, ?Exz, ?Hxy, ?(ltb_asymmetric y x Hy Hx Hxy);
        simpl; rewrite ?Eyz, ?Exz; try reflexivity.
      * now rewrite (ltb_transitive y x z Hy Hx Hz Hxy Exz) in Eyz.
      * now rewrite IH.
Qed.

Lemma psort_into_reordered (l l' : list A) :
  Permutation l l' -> Forall P l ->
  (forall a b, In a l -> In b l ->
     ltb a b = true \/ ltb b a = true \/ a = b) ->
  forall acc, Forall P acc ->
    psort_into ltb acc l = psort_into ltb acc l'.
Proof.
  induction 1 as [|x l l' HP IH|x y l|l l' l'' HP1 IH1 HP2 IH2];
    intros Hl Hties acc Hacc; simpl.
  - reflexivity.
  - inversion Hl as [|? ? Hx Hl']; subst.
    apply IH; try assumption.
    + intros a b Ha Hb. apply Hties; now right.
    + rewrite <- pinsert_perm. now constructor.
  - inversion Hl as [|? ? Hy Hl']; subst.
    inversion Hl' as [|? ? Hx Hl'']; subst.
    rewrite (pinsert_swap x y acc); try assumption; [reflexivity|].
    apply Hties; simpl; auto.
  - rewrite IH1 by assumption. apply IH2; try assumption.
    + eapply Permutation_Forall; eassumption.
    + intros a b Ha Hb. apply Hties; eapply Permutation_in;
        try eassumption; now apply Permutation_sym.
Qed.
End TotalSort.

(** ** Further facts about the order of numbers and of strings *)

Lemma ltb_ge_trans (s t u : string) :
  String.ltb t s = false -> String.ltb u t = false ->
  String.ltb u s = false.
Proof.
  intros Hts Hut.
  destruct (String.ltb u s) eqn:E; [|reflexivity].
  destruct (String.eqb_spec t u) as [->|Hne]; [congruence|].
  destruct (ltb_total t u Hne) as [Htu|Hut']; [|congruence].
  now rewrite (ltb_trans _ _ _ Htu E) in Hts.
Qed.

Lemma forallb_permuted {A : Type} (f : A -> bool) (l l' : list A) :
  Permutation l l' -> forallb f l = true -> forallb f l' = true.
Proof.
  intros HP. rewrite !forallb_forall. intros H x Hx. apply H.
  eapply Permutation_in; [apply Permutation_sym|]; eassumption.
Qed.

Lemma val_ltb_asym (a b : value) :
  (is_number a = true /\ is_number b = true)
  \/ (is_string a = true /\ is_string b = true) ->
  val_ltb a b = true -> val_ltb b a = false.
Proof.
  intros [[Ha Hb]|[Ha Hb]].
  - destruct (number_val a Ha) as [x Hx], (number_val b Hb) as [y Hy].
    rewrite (val_ltb_numbers a b x y), (val_ltb_numbers b a y x)
      by assumption.
    rewrite Qltb_lt, Qltb_ge. apply Qlt_le_weak.
  - destruct (string_val a Ha) as [s ->], (string_val b Hb) as [t ->].
    unfold val_ltb. simpl. apply ltb_asym.
Qed.

Lemma val_ltb_trans_numbers (a b c : value) :
  is_number a = true -> is_number b = true -> is_number c = true ->
  val_ltb a b = true -> val_ltb b c = true -> val_ltb a c = true.
Proof.
  intros Ha Hb Hc.
  destruct (number_val a Ha) as [x Hx], (number_val b Hb) as [y Hy],
    (number_val c Hc) as [z Hz].
  rewrite (val_ltb_numbers a b x y), (val_ltb_numbers b c y z),
    (val_ltb_numbers a c x z) by assumption.
  rewrite !Qltb_lt. apply Qlt_trans.
Qed.

Lemma val_ltb_trans_strings (a b c : value) :
  is_string a = true -> is_string b = true -> is_string c = true ->
  val_ltb a b = true -> val_ltb b c = true -> val_ltb a c = true.
Proof.
  intros Ha Hb Hc.
  destruct (string_val a Ha) as [s ->], (string_val b Hb) as [t ->],
    (string_val c Hc) as [u ->].
  unfold val_ltb. simpl. apply ltb_trans.
Qed.

(** On numbers, and on strings, the order of the sorted list is the
    complement of [<]. *)
Lemma elt_le_not_after (a b : value) :
  (is_number a = true /\ is_number b = true)
  \/ (is_string a = true /\ is_string b = true) ->
  elt_le a b -> not_after val_ltb a b.
Proof.
  unfold not_after. intros [[Ha Hb]|[Ha Hb]].
  - destruct (number_val a Ha) as [x Hx], (number_val b Hb) as [y Hy].
    rewrite (val_ltb_numbers b a y x), (elt_le_numbers a b x y)
      by assumption.
    apply Qltb_ge.
  - destruct (string_val a Ha) as [s ->], (string_val b Hb) as [t ->].
    unfold val_ltb. simpl. apply ltb_false_leb.
Qed.

(** The normal form of a list of numbers, or of strings. *)
Lemma normalize_plain_list (l : list value) :
  forallb is_number l = true \/ forallb is_string l = true ->
  _normalize_dict (VList l) = Ok (VList (psort val_ltb l))
  /\ StronglySorted (not_after val_ltb) (psort val_ltb l).
Proof.
  intros H.
  assert (map _normalize_dict l = map Ok l) as Hmap.
  { apply map_ext_in. intros x Hx. apply normalize_scalar.
    destruct H as [H|H]; rewrite forallb_forall in H;
      rewrite (H x Hx); [reflexivity|apply orb_true_r]. }
  rewrite normalize_list_eq, Hmap, (proj2 (sequence_Ok _ l) eq_refl).
  unfold bind.
  destruct H as [H|H].
  - destruct (sorted_numbers l H) as [-> Hs]. split; [reflexivity|].
    apply (StronglySorted_weaken (fun v => is_number v = true) elt_le).
    + intros a b Ha Hb. apply elt_le_not_after. now left.
    + apply Forall_forall. apply forallb_forall.
      exact (forallb_permuted _ _ _ (psort_perm val_ltb l) H).
    + exact Hs.
  - destruct (sorted_strings l H) as [-> Hs]. split; [reflexivity|].
    apply (StronglySorted_weaken (fun v => is_string v = true) elt_le).
    + intros a b Ha Hb. apply elt_le_not_after. now right.
    + apply Forall_forall. apply forallb_forall.
      exact (forallb_permuted _ _ _ (psort_perm val_ltb l) H).
    + exact Hs.
Qed.

(** The items of a dict sorted by key. *)
Lemma psort_key_sorted {X : Type} (l : list (string * X)) :
  StronglySorted (not_after key_ltb) (psort key_ltb l).
Proof.
  apply (psort_into_sorted key_ltb (fun _ => True)).
  - intros x y _ _. apply ltb_asym.
  - intros x y z _ _ _. apply ltb_ge_trans.
  - constructor.
  - apply Forall_forall. intros; exact I.
  - constructor.
Qed.

Lemma sorted_keys_strict {X : Type} (l : list (string * X)) :
  StronglySorted (not_after key_ltb) l -> NoDup (map fst l) ->
  StronglySorted (fun k k' => String.ltb k k' = true) (map fst l).
Proof.
  induction 1 as [|x l Hs IH Hall]; intros Hnd; simpl; constructor;
    inversion Hnd as [|? ? Hx Hnd']; subst.
  - now apply IH.
  - rewrite Forall_forall in *. intros k Hk.
    apply in_map_iff in Hk as (y & <- & Hy).
    specialize (Hall y Hy). unfold not_after, key_ltb in Hall.
    destruct (String.eqb_spec (fst x) (fst y)) as [E|Hne].
    + exfalso. apply Hx. rewrite E. now apply in_map.
    + destruct (ltb_total _ _ Hne) as [H|H]; [exact H|congruence].
Qed.

(** ** Further facts about [_normalize_dict] *)

Lemma plain_wf (v : value) : plain v -> wf v.
Proof.
  induction v as [| | | | |l IH|d IH] using value_ind';
    intros Hp; inversion Hp as [| | | | |? Hl|? Hnd Hd]; subst;
    constructor; try assumption.
  - apply Forall_forall. intros x Hx.
    assert ((is_number x || is_string x)%bool = true) as Hs.
    { destruct Hl as [H|H]; rewrite forallb_forall in H;
        rewrite (H x Hx); [reflexivity|apply orb_true_r]. }
    destruct x; try discriminate; constructor.
  - eapply Forall_impl; [|exact (Forall_and Hd IH)].
    intros kv [Hkv IHkv]. now apply IHkv.
Qed.

(** On a well-formed value the only exception of [_normalize_dict] is
    the unsortable-list error. *)
Lemma normalize_wf_raises (v : value) (e : exn) :
  wf v -> _normalize_dict v = Raise e -> e = TypeError_unsortable.
Proof.
  revert e.
  induction v as [| | | | |l IH|d IH] using value_ind'; intros e Hwf;
    try discriminate.
  - rewrite normalize_list_eq.
    destruct (_ <- _ ;; _) as [s|e0] eqn:E; [discriminate|].
    assert (is_TypeError e0 = true) as ->.
    { destruct (sequence (map _normalize_dict l)) as [items|e1] eqn:Eseq;
        simpl in E.
      - apply sort_into_Raise in E as (x & y & Hxy).
        exact (py_lt_raises _ _ _ Hxy).
      - injection E as <-.
        apply sequence_Raise, in_map_iff in Eseq as (z & Hz & _).
        exact (normalize_raises z e1 Hz). }
    intros H; now injection H as <-.
  - inversion Hwf as [| | | | | |? Hnd Hd]; subst.
    rewrite normalize_dict_eq by assumption.
    destruct (sequence _) as [r|e0] eqn:Eseq; simpl; [discriminate|].
    intros H; injection H as ->.
    apply sequence_Raise, in_map_iff in Eseq as ([k c] & Hc & Hin).
    simpl in Hc. destruct c as [n|e']; simpl in Hc; [discriminate|].
    injection Hc as ->.
    apply (Permutation_in _ (Permutation_sym (psort_perm key_ltb _))) in Hin.
    apply in_map_iff in Hin as (kv & Hkv & Hin).
    injection Hkv as _ Hkv.
    rewrite Forall_forall in IH, Hd. exact (IH kv Hin e (Hd kv Hin) Hkv).
Qed.

(** The normal forms of the values of a dict, when all its values have
    one. *)
Lemma normalized_items (Q : value -> Prop) (d : list (string * value)) :
  Forall (fun kv => exists n, _normalize_dict (snd kv) = Ok n /\ Q n) d ->
  exists dn : list (string * value),
    map (fun kv => (fst kv, _normalize_dict (snd kv))) d
    = map (fun kn => (fst kn, Ok (snd kn))) dn
    /\ Forall (fun kn => Q (snd kn)) dn.
Proof.
  induction 1 as [|kv d (n & Hn & HQ) _ (dn & Hdn & Hall)].
  - exists []. split; [reflexivity|constructor].
  - exists ((fst kv, n) :: dn). simpl. rewrite Hn, Hdn.
    split; [reflexivity|now constructor].
Qed.

(** The value of [_normalize_dict] on a dict of distinct keys whose
    values have normal forms. *)
Lemma normalize_dict_of_normalized (d dn : list (string * value)) :
  NoDup (map fst d) ->
  map (fun kv => (fst kv, _normalize_dict (snd kv))) d
  = map (fun kn => (fst kn, Ok (snd kn))) dn ->
  _normalize_dict (VDict d) = Ok (VDict (psort key_ltb dn)).
Proof.
  intros Hnd Hdn. rewrite normalize_dict_eq by assumption.
  rewrite Hdn. unfold psort.
  change (@nil (string * result value))
    with (map (fun kn : string * value => (fst kn, Ok (snd kn))) []).
  rewrite <- (psort_into_map
                (fun kn : string * value => (fst kn, Ok (snd kn)))
                key_ltb key_ltb) by reflexivity.
  now rewrite (proj2 (sequence_items_Ok _ (psort_into key_ltb [] dn)) eq_refl).
Qed.

(** A plain value has a normal form, which is plain and is its own normal
    form. *)
Lemma normalize_plain (v : value) :
  plain v ->
  exists n, _normalize_dict v = Ok n /\ plain n /\ _normalize_dict n = Ok n.
Proof.
  induction v as [| | | | |l IH|d IH] using value_ind';
    intros Hp;
    try (eexists; split; [reflexivity|split; [exact Hp|reflexivity]]).
  - (* lists *)
    inversion Hp as [| | | | |? Hl|]; subst.
    destruct (normalize_plain_list l Hl) as [Hn Hs].
    exists (VList (psort val_ltb l)). split; [exact Hn|].
    assert (forallb is_number (psort val_ltb l) = true
            \/ forallb is_string (psort val_ltb l) = true) as Hl'.
    { destruct Hl as [H|H]; [left|right];
        exact (forallb_permuted _ _ _ (psort_perm val_ltb l) H). }
    split; [now constructor|].
    destruct (normalize_plain_list _ Hl') as [-> _].
    now rewrite (psort_sorted_id val_ltb _ Hs).
  - (* dicts *)
    inversion Hp as [| | | | | |? Hnd Hd]; subst.
    destruct (normalized_items
                (fun n => plain n /\ _normalize_dict n = Ok n) d)
      as (dn & Hdn & Hall).
    { eapply Forall_impl; [|exact (Forall_and Hd IH)].
      intros kv [Hkv IHkv]. now apply IHkv. }
    assert (map fst dn = map fst d) as Hkeys.
    { apply (f_equal (map fst)) in Hdn. rewrite !map_map in Hdn.
      simpl in Hdn. now symmetry. }
    pose proof (psort_perm key_ltb dn) as HP.
    assert (NoDup (map fst (psort key_ltb dn))) as Hnd'.
    { eapply Permutation_NoDup; [apply Permutation_map; exact HP|].
      now rewrite Hkeys. }
    assert (Forall (fun kn => plain (snd kn)
                              /\ _normalize_dict (snd kn) = Ok (snd kn))
              (psort key_ltb dn)) as Hall'
        by (eapply Permutation_Forall; eassumption).
    exists (VDict (psort key_ltb dn)).
    split; [now apply normalize_dict_of_normalized|].
    split.
    + constructor; [assumption|].
      eapply Forall_impl; [|exact Hall']. now intros kn [H _].
    + rewrite (normalize_dict_of_normalized _ (psort key_ltb dn))
        by (assumption
            || (apply map_ext_in; intros kn Hin;
                rewrite Forall_forall in Hall';
                now rewrite (proj2 (Hall' kn Hin)))).
      now rewrite (psort_sorted_id key_ltb _ (psort_key_sorted dn)).
Qed.

(** Listing the items of dicts, or the elements of tie-free lists of
    numbers or of strings, in another order does not change what
    [_normalize_dict] returns or raises. *)
Lemma normalize_same_config (v : value) :
  wf v -> forall v', same_config v v' ->
  _normalize_dict v' = _normalize_dict v.
Proof.
  induction v as [| | | | |l IH|d IH] using value_ind';
    intros Hwf v' Hsc; inversion Hsc; subst; try reflexivity.
  - (* a list in another order *)
    match goal with
    | Hl : forallb is_number l = true \/ _, HP : Permutation l ?l',
      Ht : tie_free l |- _ =>
        rename Hl into Hkind; rename HP into Hperm; rename Ht into Hties
    end.
    assert (forallb is_number l' = true \/ forallb is_string l' = true)
      as Hkind'.
    { destruct Hkind as [H|H]; [left|right];
        exact (forallb_permuted _ _ _ Hperm H). }
    rewrite (proj1 (normalize_plain_list l Hkind)),
      (proj1 (normalize_plain_list l' Hkind')).
    do 2 f_equal. symmetry. unfold psort.
    destruct Hkind as [H|H].
    + apply (psort_into_reordered val_ltb (fun v => is_number v = true));
        try assumption.
      * intros a b Ha Hb. apply val_ltb_asym. now left.
      * intros a b c. apply val_ltb_trans_numbers.
      * apply Forall_forall. now apply forallb_forall.
      * constructor.
    + apply (psort_into_reordered val_ltb (fun v => is_string v = true));
        try assumption.
      * intros a b Ha Hb. apply val_ltb_asym. now right.
      * intros a b c. apply val_ltb_trans_strings.
      * apply Forall_forall. now apply forallb_forall.
      * constructor.
  - (* a list of reordered elements *)
    rewrite !normalize_list_eq.
    replace (map _normalize_dict l') with (map _normalize_dict l);
      [reflexivity|].
    symmetry. apply Forall2_map_eq.
    inversion Hwf as [| | | | |? Hl|]; subst.
    eapply Forall2_weaken;
      [exact (Forall_and Hl IH)|eassumption|].
    intros x y [Hx IHx] Hxy. now apply IHx.
  - (* dicts *)
    inversion Hwf as [| | | | | |? Hnd Hd]; subst.
    match goal with
    | HP : Permutation d ?d1, HF : Forall2 _ ?d1 ?d' |- _ =>
        rename HP into Hperm; rename HF into Hrel
    end.
    assert (map fst d' = map fst d1) as Hkeys.
    { apply Forall2_map_eq.
      eapply Forall2_weaken; [apply Forall_forall; intros; exact I
                             |exact Hrel|].
      intros x y _ [E _]. now symmetry. }
    assert (NoDup (map fst d1)) as Hnd1.
    { eapply Permutation_NoDup; [|exact Hnd]. now apply Permutation_map. }
    rewrite !normalize_dict_eq by (assumption || now rewrite Hkeys).
    assert (map (fun kv => (fst kv, _normalize_dict (snd kv))) d'
            = map (fun kv => (fst kv, _normalize_dict (snd kv))) d1) as ->.
    { apply Forall2_map_eq.
      eapply Forall2_weaken;
        [exact (Permutation_Forall Hperm (Forall_and Hd IH))|exact Hrel|].
      intros x y [Hx IHx] [E Hxy]. simpl.
      now rewrite E, (IHx Hx _ Hxy). }
    rewrite (psort_permuted
               (map (fun kv => (fst kv, _normalize_dict (snd kv))) d)
               (map (fun kv => (fst kv, _normalize_dict (snd kv))) d1)).
    + reflexivity.
    + now apply Permutation_map.
    + now rewrite map_map.
Qed.

(** ** Further properties of the hash generator *)

(** X1. The canonical form of a mapping is a mapping with the same keys,
    listed in strictly increasing lexicographic order, each with the
    canonical form of its value. *)
Theorem normalize_dict_keys (d : list (string * value)) (n : value) :
  NoDup (map fst d) ->
  _normalize_dict (VDict d) = Ok n ->
  exists r,
    n = VDict r
    /\ Permutation (map fst d) (map fst r)
    /\ StronglySorted (fun k k' => String.ltb k k' = true) (map fst r)
    /\ forall k v', In (k, v') r ->
         exists v, In (k, v) d /\ _normalize_dict v = Ok v'.
Proof.
  intros Hnd Hn. rewrite normalize_dict_eq in Hn by assumption.
  destruct (sequence _) as [r|e] eqn:Eseq in Hn; [|discriminate].
  injection Hn as <-. exists r.
  apply sequence_items_Ok in Eseq.
  pose proof (psort_perm key_ltb
    (map (fun kv => (fst kv, _normalize_dict (snd kv))) d)) as HP.
  pose proof (psort_key_sorted
    (map (fun kv => (fst kv, _normalize_dict (snd kv))) d)) as Hs.
  rewrite Eseq in HP, Hs.
  assert (Permutation (map fst d) (map fst r)) as Hkeys.
  { apply (Permutation_map fst) in HP. now rewrite !map_map in HP. }
  split; [reflexivity|split; [exact Hkeys|split]].
  - apply sorted_keys_strict in Hs.
    + now rewrite map_map in Hs.
    + rewrite map_map. simpl.
      eapply Permutation_NoDup; eassumption.
  - intros k v' Hin.
    apply (in_map (fun kv => (fst kv, Ok (snd kv)))) in Hin.
    apply (Permutation_in _ (Permutation_sym HP)) in Hin.
    apply in_map_iff in Hin as ([k0 v] & E & Hin). simpl in E.
    injection E as -> E. eauto.
Qed.

Lemma normalize_dict_keys_witness :
  exists r,
    VDict [("fast", VInt 10); ("slow", VInt 20); ("type", VStr "sma")]
    = VDict r
    /\ Permutation (map fst [("type", VStr "sma"); ("slow", VInt 20);
                             ("fast", VInt 10)])
         (map fst r)
    /\ StronglySorted (fun k k' => String.ltb k k' = true) (map fst r)
    /\ forall k v', In (k, v') r ->
         exists v,
           In (k, v) [("type", VStr "sma"); ("slow", VInt 20);
                      ("fast", VInt 10)]
           /\ _normalize_dict v = Ok v'.
Proof.
  apply (normalize_dict_keys
           [("type", VStr "sma"); ("slow", VInt 20); ("fast", VInt 10)]).
  - repeat constructor; simpl; intuition discriminate.
  - reflexivity.
Defined.

(** X2. On a value whose dicts have distinct keys, [hash_strategy_config]
    either returns the digest of the serialized canonical form or raises
    the unsortable-list error, and it raises exactly when
    [_normalize_dict] does: serialization never raises, and no other
    exception escapes. *)
Theorem hash_strategy_config_outcome
  (float_repr : Q -> string) (sha256_hexdigest : string -> string)
  (v : value) :
  wf v ->
  (exists n,
     _normalize_dict v = Ok n
     /\ hash_strategy_config float_repr sha256_hexdigest v
        = Ok (sha256_hexdigest (serialize float_repr n)))
  \/ (_normalize_dict v = Raise TypeError_unsortable
      /\ hash_strategy_config float_repr sha256_hexdigest v
         = Raise TypeError_unsortable).
Proof.
  intros Hwf. unfold hash_strategy_config.
  destruct (_normalize_dict v) as [n|e] eqn:E.
  - left. exists n. split; [reflexivity|]. unfold bind.
    now rewrite (json_dumps_serialize float_repr n (normalize_wf v Hwf n E)).
  - right. rewrite (normalize_wf_raises v e Hwf E). now split.
Qed.

Lemma hash_strategy_config_outcome_witness :
  (exists n,
     _normalize_dict (VDict [("tags", VList [VNone; VNone])]) = Ok n
     /\ hash_strategy_config (fun _ => "0.5") (fun s => s)
          (VDict [("tags", VList [VNone; VNone])])
        = Ok (serialize (fun _ => "0.5") n))
  \/ (_normalize_dict (VDict [("tags", VList [VNone; VNone])])
      = Raise TypeError_unsortable
      /\ hash_strategy_config (fun _ => "0.5") (fun s => s)
           (VDict [("tags", VList [VNone; VNone])])
         = Raise TypeError_unsortable).
Proof.
  apply (hash_strategy_config_outcome (fun _ => "0.5") (fun s => s)
           (VDict [("tags", VList [VNone; VNone])])).
  repeat constructor; simpl; intuition discriminate.
Defined.

(** X3. [hash_strategy_config] and [hash_parameters] return a digest, and
    raise nothing, on every value whose dicts have distinct keys and
    whose lists each hold numbers only or strings only. *)
Theorem hash_plain_succeeds
  (float_repr : Q -> string) (sha256_hexdigest : string -> string)
  (v : value) :
  plain v ->
  exists digest,
    hash_strategy_config float_repr sha256_hexdigest v = Ok digest
    /\ hash_parameters float_repr sha256_hexdigest v = Ok digest.
Proof.
  intros Hp. destruct (normalize_plain v Hp) as (n & Hn & Hpn & _).
  exists (sha256_hexdigest (serialize float_repr n)).
  unfold hash_strategy_config, hash_parameters. rewrite Hn. unfold bind.
  rewrite (json_dumps_serialize float_repr n (plain_wf n Hpn)).
  now split.
Qed.

Lemma hash_plain_succeeds_witness :
  exists digest,
    hash_strategy_config (fun _ => "0.5") (fun s => s)
      (VDict [("type", VStr "multi_timeframe");
              ("timeframes", VList [VStr "1m"; VStr "5m"; VStr "15m"]);
              ("weights", VList [VInt 5; VInt 3; VInt 2])])
    = Ok digest
    /\ hash_parameters (fun _ => "0.5") (fun s => s)
         (VDict [("type", VStr "multi_timeframe");
                 ("timeframes", VList [VStr "1m"; VStr "5m"; VStr "15m"]);
                 ("weights", VList [VInt 5; VInt 3; VInt 2])])
       = Ok digest.
Proof.
  apply hash_plain_succeeds.
  constructor.
  - repeat constructor; simpl; intuition discriminate.
  - constructor; [constructor|].
    constructor; [apply plain_List; right; reflexivity|].
    constructor; [apply plain_List; left; reflexivity|constructor].
Defined.

(** X4. Canonicalization is idempotent on such values: the canonical
    form is its own canonical form, so it hashes as the value it came
    from. *)
Theorem normalize_idempotent
  (float_repr : Q -> string) (sha256_hexdigest : string -> string)
  (v n : value) :
  plain v ->
  _normalize_dict v = Ok n ->
  _normalize_dict n = Ok n
  /\ hash_strategy_config float_repr sha256_hexdigest n
     = hash_strategy_config float_repr sha256_hexdigest v.
Proof.
  intros Hp Hn. destruct (normalize_plain v Hp) as (n' & Hn' & _ & Hid).
  rewrite Hn in Hn'. injection Hn' as <-.
  split; [exact Hid|].
  unfold hash_strategy_config. now rewrite Hid, Hn.
Qed.

Lemma normalize_idempotent_witness :
  _normalize_dict
    (VDict [("a", VList [VInt 1; VInt 2]); ("b", VStr "x")])
  = Ok (VDict [("a", VList [VInt 1; VInt 2]); ("b", VStr "x")])
  /\ hash_strategy_config (fun _ => "0.5") (fun s => s)
       (VDict [("a", VList [VInt 1; VInt 2]); ("b", VStr "x")])
     = hash_strategy_config (fun _ => "0.5") (fun s => s)
         (VDict [("b", VStr "x"); ("a", VList [VInt 2; VInt 1])]).
Proof.
  apply (normalize_idempotent (fun _ => "0.5") (fun s => s)
           (VDict [("b", VStr "x"); ("a", VList [VInt 2; VInt 1])])).
  - constructor.
    + repeat constructor; simpl; intuition discriminate.
    + constructor; [constructor|].
      constructor; [apply plain_List; left; reflexivity|constructor].
  - reflexivity.
Defined.

(** X5. Two values that differ only in the order of the items of their
    dicts and in the order of the elements of their tie-free lists of
    numbers or of strings have the same hash, or raise the same
    exception. *)
Theorem hash_strategy_config_same_config
  (float_repr : Q -> string) (sha256_hexdigest : string -> string)
  (v v' : value) :
  wf v -> same_config v v' ->
  hash_strategy_config float_repr sha256_hexdigest v'
  = hash_strategy_config float_repr sha256_hexdigest v.
Proof.
  intros Hwf Hsc. unfold hash_strategy_config.
  now rewrite (normalize_same_config v Hwf v' Hsc).
Qed.

Lemma hash_strategy_config_same_config_witness :
  hash_strategy_config (fun _ => "0.5") (fun s => s)
    (VDict [("weights", VList [VInt 2; VInt 5; VInt 3]);
            ("timeframes", VList [VStr "15m"; VStr "1m"; VStr "5m"])])
  = hash_strategy_config (fun _ => "0.5") (fun s => s)
      (VDict [("timeframes", VList [VStr "1m"; VStr "5m"; VStr "15m"]);
              ("weights", VList [VInt 5; VInt 3; VInt 2])]).
Proof.
  apply hash_strategy_config_same_config.
  - repeat constructor; simpl; intuition discriminate.
  - apply sc_Dict
      with (d1 := [("weights", VList [VInt 5; VInt 3; VInt 2]);
                   ("timeframes",
                    VList [VStr "1m"; VStr "5m"; VStr "15m"])]).
    + apply perm_swap.
    + constructor; [split; [reflexivity|]|constructor;
                                            [split; [reflexivity|]|]].
      * apply sc_Perm.
        -- left. reflexivity.
        -- intros a b Ha Hb. simpl in Ha, Hb.
           repeat (destruct Ha as [<-|Ha]; [|]); try contradiction;
             repeat (destruct Hb as [<-|Hb]; [|]); try contradiction;
             first [left; reflexivity
                   |right; left; reflexivity
                   |right; right; reflexivity].
        -- apply perm_trans with [VInt 5; VInt 2; VInt 3];
             [apply perm_skip, perm_swap|apply perm_swap].
      * apply sc_Perm.
        -- right. reflexivity.
        -- intros a b Ha Hb. simpl in Ha, Hb.
           repeat (destruct Ha as [<-|Ha]; [|]); try contradiction;
             repeat (destruct Hb as [<-|Hb]; [|]); try contradiction;
             first [left; reflexivity
                   |right; left; reflexivity
                   |right; right; reflexivity].
        -- apply perm_trans with [VStr "1m"; VStr "15m"; VStr "5m"];
             [apply perm_skip, perm_swap|apply perm_swap].
      * constructor.
Defined.

(** X6. The sort is stable: two numbers that are equal by value, such as
    [1] and [1.0], are kept in the order in which the list gives them,
    so the canonical form of such a list depends on that order. *)
Theorem normalize_keeps_order_of_ties (a b : value) (x y : Q) :
  num_val a = Some x -> num_val b = Some y -> (x == y)%Q ->
  _normalize_dict (VList [a; b]) = Ok (VList [a; b])
  /\ _normalize_dict (VList [b; a]) = Ok (VList [b; a]).
Proof.
  intros Ha Hb Hxy.
  assert (_normalize_dict a = Ok a) as Na
      by (destruct a; try discriminate; reflexivity).
  assert (_normalize_dict b = Ok b) as Nb
      by (destruct b; try discriminate; reflexivity).
  assert (Qltb y x = false) as Hyx
      by (apply Qltb_ge; rewrite Hxy; apply Qle_refl).
  assert (Qltb x y = false) as Hxy'
      by (apply Qltb_ge; rewrite Hxy; apply Qle_refl).
  rewrite !normalize_list_eq. simpl. rewrite Na, Nb. simpl.
  unfold sorted. simpl.
  rewrite (py_lt_numbers b a y x Hb Ha), (py_lt_numbers a b x y Ha Hb).
  simpl. rewrite Hyx, Hxy'. now split.
Qed.

Lemma normalize_keeps_order_of_ties_witness :
  _normalize_dict (VList [VInt 1; VFloat 1]) = Ok (VList [VInt 1; VFloat 1])
  /\ _normalize_dict (VList [VFloat 1; VInt 1])
     = Ok (VList [VFloat 1; VInt 1]).
Proof.
  apply (normalize_keeps_order_of_ties (VInt 1) (VFloat 1) (inject_Z 1) 1);
    reflexivity.
Defined.




(** ** Further properties of the record model *)

Lemma last_cons_default {A : Type} (x : A) (l : list A) (a b : A) :
  List.last (x :: l) a = List.last (x :: l) b.
Proof.
  revert x. induction l as [|y l IH]; intros x; [reflexivity|].
  exact (IH y).
Qed.

(** X8. Any number of accesses to a record adds that number to its
    access count and leaves [last_accessed] at the time of the last one;
    the identity, the results and the other fields of the metadata are
    those the record had. *)
Theorem mark_accessed_each_frame
  (clock : list datetime) (self : BacktestRecord) :
  access_count (metadata (mark_accessed_each clock self))
  = access_count (metadata self) + Z.of_nat (List.length clock)
  /\ last_accessed (metadata (mark_accessed_each clock self))
     = List.last clock (last_accessed (metadata self))
  /\ identity (mark_accessed_each clock self) = identity self
  /\ results (mark_accessed_each clock self) = results self
  /\ created_at (metadata (mark_accessed_each clock self))
     = created_at (metadata self)
  /\ execution_time_seconds (metadata (mark_accessed_each clock self))
     = execution_time_seconds (metadata self)
  /\ data_filename (metadata (mark_accessed_each clock self))
     = data_filename (metadata self)
  /\ data_size_bytes (metadata (mark_accessed_each clock self))
     = data_size_bytes (metadata self)
  /\ data_rows (metadata (mark_accessed_each clock self))
     = data_rows (metadata self).
Proof.
  unfold mark_accessed_each. revert self.
  induction clock as [|now clock IH]; intros self.
  - simpl. repeat split. lia.
  - cbn [fold_left].
    destruct (IH (BacktestRecord_mark_accessed now self))
      as (Hc & Hl & Hi & Hr & H1 & H2 & H3 & H4 & H5).
    rewrite Hc, Hl, Hi, Hr, H1, H2, H3, H4, H5.
    repeat split.
    + cbn [BacktestRecord_mark_accessed BacktestMetadata_mark_accessed
             metadata access_count List.length]. lia.
    + destruct clock as [|t clock]; [reflexivity|].
      exact (last_cons_default t clock _ _).
Qed.

(** X9. The identity that a construction returns holds the four strings
    it was given, unchanged, each of 64 characters; constructing again
    from its fields returns the same identity. *)
Theorem BacktestIdentity_init_fields
  (d s p m : value) (i : BacktestIdentity) :
  BacktestIdentity_init d s p m = Ok i ->
  (d = VStr (data_hash i) /\ s = VStr (strategy_hash i)
   /\ p = VStr (params_hash i) /\ m = VStr (master_hash i))
  /\ (String.length (data_hash i) = 64%nat
      /\ String.length (strategy_hash i) = 64%nat
      /\ String.length (params_hash i) = 64%nat
      /\ String.length (master_hash i) = 64%nat)
  /\ BacktestIdentity_init (VStr (data_hash i)) (VStr (strategy_hash i))
       (VStr (params_hash i)) (VStr (master_hash i))
     = Ok i.
Proof.
  assert (forall v t, validated v = Ok t ->
            v = VStr t /\ String.length t = 64%nat) as Hv.
  { intros v t. destruct v as [| | | |u| |]; simpl; try discriminate.
    destruct (Nat.eqb_spec (String.length u) 64) as [E|E]; simpl;
      [|discriminate].
    intros H; injection H as <-. now split. }
  intros H. unfold BacktestIdentity_init in H.
  destruct (validated d) as [d0|] eqn:Ed; simpl in H; [|discriminate].
  destruct (validated s) as [s0|] eqn:Es; simpl in H; [|discriminate].
  destruct (validated p) as [p0|] eqn:Ep; simpl in H; [|discriminate].
  destruct (validated m) as [m0|] eqn:Em; simpl in H; [|discriminate].
  injection H as <-.
  cbn [data_hash strategy_hash params_hash master_hash].
  destruct (Hv _ _ Ed) as [-> Ld], (Hv _ _ Es) as [-> Ls],
    (Hv _ _ Ep) as [-> Lp], (Hv _ _ Em) as [-> Lm].
  unfold BacktestIdentity_init. rewrite Ed, Es, Ep, Em.
  repeat split; assumption.
Qed.

Lemma BacktestIdentity_init_fields_witness :
  exists i,
    BacktestIdentity_init
      (VStr "0000000000000000000000000000000000000000000000000000000000000000")
      (VStr "1111111111111111111111111111111111111111111111111111111111111111")
      (VStr "2222222222222222222222222222222222222222222222222222222222222222")
      (VStr "3333333333333333333333333333333333333333333333333333333333333333")
    = Ok i
    /\ String.length (master_hash i) = 64%nat.
Proof.
  eexists. split; [reflexivity|].
  match goal with
  | |- String.length (master_hash ?i) = _ =>
      exact (proj2 (proj2 (proj2 (proj1 (proj2
               (BacktestIdentity_init_fields
                  (VStr (data_hash i)) (VStr (strategy_hash i))
                  (VStr (params_hash i)) (VStr (master_hash i))
                  i eq_refl))))))
  end.
Defined.

(** X10. After any sequence of hit and miss reports the statistics hold
    the number of hits, the number of misses and the number of reports
    added to what they held; the three record counters are not touched;
    and the order of the reports does not matter. *)
Theorem record_each_counts (rs : list report) (self : CacheStats) :
  cache_hits (record_each rs self)
  = cache_hits self + Z.of_nat (List.length (filter is_hit rs))
  /\ cache_misses (record_each rs self)
     = cache_misses self
       + Z.of_nat (List.length (filter (fun r => negb (is_hit r)) rs))
  /\ total_requests (record_each rs self)
     = total_requests self + Z.of_nat (List.length rs)
  /\ total_records (record_each rs self) = total_records self
  /\ total_data_hashes (record_each rs self) = total_data_hashes self
  /\ total_strategy_hashes (record_each rs self)
     = total_strategy_hashes self
  /\ forall rs', Permutation rs rs' ->
       record_each rs' self = record_each rs self.
Proof.
  assert (forall rs self,
            cache_hits (record_each rs self)
            = cache_hits self + Z.of_nat (List.length (filter is_hit rs))
            /\ cache_misses (record_each rs self)
               = cache_misses self
                 + Z.of_nat
                     (List.length (filter (fun r => negb (is_hit r)) rs))
            /\ total_requests (record_each rs self)
               = total_requests self + Z.of_nat (List.length rs)
            /\ total_records (record_each rs self) = total_records self
            /\ total_data_hashes (record_each rs self)
               = total_data_hashes self
            /\ total_strategy_hashes (record_each rs self)
               = total_strategy_hashes self) as Hcount.
  { clear. unfold record_each.
    induction rs as [|r rs IH]; intros self.
    - simpl. repeat split; lia.
    - cbn [fold_left].
      destruct (IH (record self r)) as (Hh & Hm & Ht & H1 & H2 & H3).
      rewrite Hh, Hm, Ht, H1, H2, H3.
      destruct r; simpl; repeat split; lia. }
  destruct (Hcount rs self) as (Hh & Hm & Ht & H1 & H2 & H3).
  repeat split; try assumption.
  intros rs' HP. symmetry. clear - HP. revert self. unfold record_each.
  induction HP as [|r l l' HP IH|r r' l|l l' l'' HP1 IH1 HP2 IH2];
    intros self; cbn [fold_left].
  - reflexivity.
  - apply IH.
  - now destruct r, r'.
  - now rewrite IH1.
Qed.

(** X12. [BacktestResult.from_simulation] returns no result: it calls the
    constructor with the keyword [stats], which is none of its
    parameters, so the call raises [TypeError] whatever the simulation
    data is. *)
Theorem from_simulation_raises
  (pickle_dumps : value -> list Byte.byte)
  (simulation_data : list (string * value)) :
  Simulation.from_simulation pickle_dumps simulation_data
  = inl (Simulation.TypeError_unexpected_keyword
           "BacktestResult.__init__" "stats").
Proof. reflexivity. Qed.

(** X18. The four hashes that the generator computes for a file, a
    strategy configuration and parameters that are plain values form a
    valid [BacktestIdentity], whenever the digest is a text of 64
    characters, as the hexadecimal text of SHA-256 is. *)
Theorem generated_hashes_form_identity
  (float_repr : Q -> string) (sha256_hexdigest : string -> string)
  (sha256_bytes : list Byte.byte -> string)
  (csv_content : list Byte.byte) (strategy_config params : value) :
  (forall t, String.length (sha256_hexdigest t) = 64%nat) ->
  (forall b, String.length (sha256_bytes b) = 64%nat) ->
  plain strategy_config -> plain params ->
  exists strategy_digest params_digest,
    hash_strategy_config float_repr sha256_hexdigest strategy_config
    = Ok strategy_digest
    /\ hash_parameters float_repr sha256_hexdigest params = Ok params_digest
    /\ BacktestIdentity_init
         (VStr (hash_csv_data sha256_bytes csv_content))
         (VStr strategy_digest) (VStr params_digest)
         (VStr (create_backtest_hash sha256_hexdigest
                  (hash_csv_data sha256_bytes csv_content)
                  strategy_digest params_digest))
       = Ok {| data_hash := hash_csv_data sha256_bytes csv_content;
               strategy_hash := strategy_digest;
               params_hash := params_digest;
               master_hash :=
                 create_backtest_hash sha256_hexdigest
                   (hash_csv_data sha256_bytes csv_content)
                   strategy_digest params_digest |}.
Proof.
  intros Hsha Hbytes Hs Hp.
  destruct (normalize_plain strategy_config Hs) as (ns & Hns & Hpns & _).
  destruct (normalize_plain params Hp) as (np & Hnp & Hpnp & _).
  exists (sha256_hexdigest (serialize float_repr ns)),
    (sha256_hexdigest (serialize float_repr np)).
  unfold hash_strategy_config, hash_parameters. rewrite Hns, Hnp.
  unfold bind.
  rewrite (json_dumps_serialize float_repr ns (plain_wf ns Hpns)),
    (json_dumps_serialize float_repr np (plain_wf np Hpnp)).
  split; [reflexivity|split; [reflexivity|]].
  unfold BacktestIdentity_init, validated, invalid_hash_format,
    create_backtest_hash, hash_csv_data.
  now rewrite !Hsha, Hbytes.
Qed.

Lemma generated_hashes_form_identity_witness :
  exists strategy_digest params_digest,
    hash_strategy_config (fun _ => "0.002")
      (fun _ =>
         "0000000000000000000000000000000000000000000000000000000000000000")
      (VDict [("fast", VInt 10)])
    = Ok strategy_digest
    /\ hash_parameters (fun _ => "0.002")
         (fun _ =>
            "0000000000000000000000000000000000000000000000000000000000000000")
         (VDict [("commission", VFloat (1 # 500))])
       = Ok params_digest
    /\ BacktestIdentity_init
         (VStr (hash_csv_data
                  (fun _ =>
                     "1111111111111111111111111111111111111111111111111111111111111111")
                  []))
         (VStr strategy_digest) (VStr params_digest)
         (VStr (create_backtest_hash
                  (fun _ =>
                     "0000000000000000000000000000000000000000000000000000000000000000")
                  (hash_csv_data
                     (fun _ =>
                        "1111111111111111111111111111111111111111111111111111111111111111")
                     [])
                  strategy_digest params_digest))
       = Ok {| data_hash :=
                 hash_csv_data
                   (fun _ =>
                      "1111111111111111111111111111111111111111111111111111111111111111")
                   [];
               strategy_hash := strategy_digest;
               params_hash := params_digest;
               master_hash :=
                 create_backtest_hash
                   (fun _ =>
                      "0000000000000000000000000000000000000000000000000000000000000000")
                   (hash_csv_data
                      (fun _ =>
                         "1111111111111111111111111111111111111111111111111111111111111111")
                      [])
                   strategy_digest params_digest |}.
Proof.
  apply (generated_hashes_form_identity
           (fun _ => "0.002")
           (fun _ =>
              "0000000000000000000000000000000000000000000000000000000000000000")
           (fun _ =>
              "1111111111111111111111111111111111111111111111111111111111111111")
           [] (VDict [("fast", VInt 10)])
           (VDict [("commission", VFloat (1 # 500))])).
  - reflexivity.
  - reflexivity.
  - repeat constructor; simpl; intuition discriminate.
  - repeat constructor; simpl; intuition discriminate.
Defined.

(** ** Properties of the message store *)

Import Api.

Lemma filter_length_lt {A : Type} (f : A -> bool) (l : list A) :
  (List.length (filter f l) < List.length l)%nat
  <-> exists x, In x l /\ f x = false.
Proof.
  induction l as [|y l IH]; simpl.
  - split; [lia|intros (x & [] & _)].
  - pose proof (filter_length_le f l) as Hle.
    destruct (f y) eqn:E; simpl.
    + rewrite <- Nat.succ_lt_mono, IH. split.
      * intros (x & Hx & Hf). eauto.
      * intros (x & [->|Hx] & Hf); [congruence|eauto].
    + split; [eauto|lia].
Qed.

(** The store after [delete_message]. *)
Lemma delete_message_store
  (message_id : Z) (messages_db : list stored_message) :
  snd (delete_message message_id messages_db)
  = filter (fun msg => negb (Z.eqb (msg_id msg) message_id)) messages_db
  /\ forall msg,
       In msg (snd (delete_message message_id messages_db))
       <-> In msg messages_db /\ msg_id msg <> message_id.
Proof.
  assert (snd (delete_message message_id messages_db)
          = filter (fun msg => negb (Z.eqb (msg_id msg) message_id))
              messages_db) as E.
  { unfold delete_message.
    now destruct (Nat.ltb _ _). }
  split; [exact E|].
  intros msg. rewrite E, filter_In, negb_true_iff, Z.eqb_neq. reflexivity.
Qed.

(** X13. [delete_message] answers with a response exactly when a stored
    message has the id, and with the 404 exception otherwise; afterwards
    the store holds the messages with another id, in their order, and so
    none with this id; when it answers 404 the store is as it was. *)
Theorem delete_message_removes
  (message_id : Z) (messages_db : list stored_message) :
  (is_response (fst (delete_message message_id messages_db)) = true
   <-> exists msg, In msg messages_db /\ msg_id msg = message_id)
  /\ (is_response (fst (delete_message message_id messages_db)) = false ->
      fst (delete_message message_id messages_db)
      = HTTPException 404 "Message not found"
      /\ snd (delete_message message_id messages_db) = messages_db)
  /\ (forall msg,
        In msg (snd (delete_message message_id messages_db))
        <-> In msg messages_db /\ msg_id msg <> message_id)
  /\ snd (delete_message message_id messages_db)
     = filter (fun msg => negb (Z.eqb (msg_id msg) message_id)) messages_db.
Proof.
  unfold delete_message.
  pose proof (filter_length_lt
                (fun msg => negb (Z.eqb (msg_id msg) message_id))
                messages_db) as Hlt.
  assert (forall msg,
            In msg (filter (fun msg => negb (Z.eqb (msg_id msg) message_id))
                      messages_db)
            <-> In msg messages_db /\ msg_id msg <> message_id) as Hin.
  { intros msg. rewrite filter_In, negb_true_iff, Z.eqb_neq. reflexivity. }
  destruct (Nat.ltb_spec
              (List.length
                 (filter (fun msg => negb (Z.eqb (msg_id msg) message_id))
                    messages_db))
              (List.length messages_db)) as [H|H]; simpl.
  - split; [|split; [discriminate|split; [exact Hin|reflexivity]]].
    split; [intros _|reflexivity].
    apply Hlt in H as (x & Hx & Hf).
    exists x. split; [assumption|].
    apply negb_false_iff in Hf. now apply Z.eqb_eq.
  - split; [|split; [|split; [exact Hin|reflexivity]]].
    + split; [discriminate|].
      intros (x & Hx & Hf). exfalso.
      assert (List.length
                (filter (fun msg => negb (Z.eqb (msg_id msg) message_id))
                   messages_db) < List.length messages_db)%nat; [|lia].
      apply Hlt. exists x. split; [assumption|].
      apply negb_false_iff. now apply Z.eqb_eq.
    + intros _. split; [reflexivity|].
      apply forallb_filter_id. apply forallb_forall. intros x Hx.
      destruct (negb (Z.eqb (msg_id x) message_id)) eqn:E; [reflexivity|].
      exfalso.
      assert (List.length
                (filter (fun msg => negb (Z.eqb (msg_id msg) message_id))
                   messages_db) < List.length messages_db)%nat; [|lia].
      apply Hlt. eauto.
Qed.

(** X14. [update_message] answers with a response exactly when a stored
    message has the id; it then replaces the text and the author of the
    first such message and of no other, and keeps the ids, the
    timestamps and the order of all; otherwise it answers 404 and the
    store is as it was. *)
Theorem update_message_first
  (message_id : Z) (message : Message) (messages_db : list stored_message) :
  (is_response (fst (update_message message_id message messages_db)) = true
   <-> exists msg, In msg messages_db /\ msg_id msg = message_id)
  /\ (is_response (fst (update_message message_id message messages_db))
      = false ->
      fst (update_message message_id message messages_db)
      = HTTPException 404 "Message not found"
      /\ snd (update_message message_id message messages_db) = messages_db)
  /\ map msg_id (snd (update_message message_id message messages_db))
     = map msg_id messages_db
  /\ map msg_timestamp (snd (update_message message_id message messages_db))
     = map msg_timestamp messages_db
  /\ (forall before msg after,
        messages_db = (before ++ msg :: after)%list ->
        msg_id msg = message_id ->
        (forall m, In m before -> msg_id m <> message_id) ->
        snd (update_message message_id message messages_db)
        = (before
           ++ {| msg_id := msg_id msg;
                 msg_text := text message;
                 msg_author := author message;
                 msg_timestamp := msg_timestamp msg |} :: after)%list).
Proof.
  unfold update_message.
  assert (forall db,
            match update_first message_id message db with
            | Some (_, db') =>
                (exists msg, In msg db /\ msg_id msg = message_id)
                /\ map msg_id db' = map msg_id db
                /\ map msg_timestamp db' = map msg_timestamp db
            | None => forall msg, In msg db -> msg_id msg <> message_id
            end) as Hfirst.
  { induction db as [|m db IH]; simpl; [intros ? []|].
    destruct (Z.eqb_spec (msg_id m) message_id) as [E|E].
    - split; [exists m; auto|split; reflexivity].
    - destruct (update_first message_id message db) as [[found db']|].
      + destruct IH as ((x & Hx & Ex) & Hi & Ht).
        split; [exists x; auto|]. simpl. now rewrite Hi, Ht.
      + intros x [<-|Hx]; auto. }
  assert (forall before msg after,
            msg_id msg = message_id ->
            (forall m, In m before -> msg_id m <> message_id) ->
            update_first message_id message (before ++ msg :: after)%list
            = Some ({| msg_id := msg_id msg;
                       msg_text := text message;
                       msg_author := author message;
                       msg_timestamp := msg_timestamp msg |},
                    (before
                     ++ {| msg_id := msg_id msg;
                           msg_text := text message;
                           msg_author := author message;
                           msg_timestamp := msg_timestamp msg |}
                        :: after)%list)) as Hsplit.
  { induction before as [|m before IH]; intros msg after Hmsg Hbefore; simpl.
    - apply Z.eqb_eq in Hmsg. now rewrite Hmsg.
    - assert (msg_id m <> message_id) as Hm by (apply Hbefore; now left).
      apply Z.eqb_neq in Hm. rewrite Hm.
      rewrite (IH msg after Hmsg); [reflexivity|].
      intros x Hx. apply Hbefore. now right. }
  specialize (Hfirst messages_db).
  destruct (update_first message_id message messages_db)
    as [[found db']|] eqn:E; simpl.
  - destruct Hfirst as (Hex & Hi & Ht).
    split; [split; [intros _; exact Hex|reflexivity]|].
    split; [discriminate|].
    split; [exact Hi|split; [exact Ht|]].
    intros before msg after -> Hmsg Hbefore.
    rewrite (Hsplit before msg after Hmsg Hbefore) in E.
    now injection E as _ <-.
  - split.
    + split; [discriminate|].
      intros (x & Hx & Ex). exfalso. exact (Hfirst x Hx Ex).
    + split; [intros _; now split|].
      split; [reflexivity|split; [reflexivity|]].
      intros before msg after -> Hmsg Hbefore.
      now rewrite (Hsplit before msg after Hmsg Hbefore) in E.
Qed.

Lemma create_each_ids
  (requests : list (Q * Message)) (messages_db : list stored_message) :
  map msg_id (create_each requests messages_db)
  = (map msg_id messages_db
     ++ map (fun i => Z.of_nat i + 1)
          (seq (List.length messages_db) (List.length requests)))%list.
Proof.
  revert messages_db.
  induction requests as [|[now message] requests IH]; intros db; simpl.
  - now rewrite app_nil_r.
  - rewrite IH. rewrite map_app, length_app, <- app_assoc. simpl.
    now rewrite Nat.add_1_r.
Qed.

(** X15. Messages created one after the other in an empty store get the
    ids 1, 2, 3, ... in the order of creation, each message keeping the
    text, the author and the time of its request. *)
Theorem create_each_numbers (requests : list (Q * Message)) :
  map msg_id (create_each requests [])
  = map (fun i => Z.of_nat i + 1) (seq 0 (List.length requests))
  /\ map (fun m => (msg_timestamp m,
                    {| text := msg_text m; author := msg_author m |}))
       (create_each requests [])
     = requests.
Proof.
  split; [exact (create_each_ids requests [])|].
  assert (forall db,
            map (fun m => (msg_timestamp m,
                           {| text := msg_text m; author := msg_author m |}))
              (create_each requests db)
            = (map (fun m => (msg_timestamp m,
                              {| text := msg_text m;
                                 author := msg_author m |})) db
               ++ requests)%list) as H.
  { induction requests as [|[now [t a]] requests IH]; intros db; simpl.
    - now rewrite app_nil_r.
    - rewrite IH, map_app, <- app_assoc. reflexivity. }
  exact (H []).
Qed.

(** X16. The ids are not kept unique: in a store built by creations
    alone, deleting any message but the last and then creating a message
    appends a message with the id of the last one, which is still
    stored. *)
Theorem create_after_delete_reuses_id
  (requests : list (Q * Message)) (message_id : Z)
  (now : Q) (message : Message) :
  1 <= message_id < Z.of_nat (List.length requests) ->
  snd (create_message now message
         (snd (delete_message message_id (create_each requests []))))
  = (snd (delete_message message_id (create_each requests []))
     ++ [ {| msg_id := Z.of_nat (List.length requests);
             msg_text := text message;
             msg_author := author message;
             msg_timestamp := now |} ])%list
  /\ (exists before last,
        create_each requests [] = (before ++ [last])%list
        /\ msg_id last = Z.of_nat (List.length requests)
        /\ In last
             (snd (delete_message message_id (create_each requests []))))
  /\ ~ NoDup
        (map msg_id
           (snd (create_message now message
                   (snd (delete_message message_id
                           (create_each requests [])))))).
Proof.
  intros Hid.
  set (db := create_each requests []).
  set (n := List.length requests).
  assert (map msg_id db = map (fun i => Z.of_nat i + 1) (seq 0 n)) as Hids
      by exact (create_each_ids requests []).
  assert (List.length db = n) as Hlen.
  { rewrite <- (length_map msg_id db), Hids, length_map. apply length_seq. }
  destruct (delete_message_store message_id db) as (Hdb' & Hin).
  set (db' := snd (delete_message message_id db)) in *.
  assert (NoDup (map msg_id db)) as Hnd.
  { rewrite Hids. apply Finite.Injective_map_NoDup; [|apply seq_NoDup].
    intros i j. lia. }
  assert (exists before last,
            db = (before ++ [last])%list /\ msg_id last = Z.of_nat n)
    as (before & last & Hdb & Elast).
  { destruct (exists_last (l := db)) as (before & last & E).
    { intros E. rewrite E in Hlen. simpl in Hlen. lia. }
    exists before, last. split; [exact E|].
    assert (n = S (n - 1)) as En by lia.
    rewrite E, map_app, En, seq_S, map_app in Hids. simpl in Hids.
    apply app_inj_tail in Hids as [_ Hlast]. lia. }
  assert (In last db') as Hlast.
  { apply Hin. split; [|lia].
    rewrite Hdb. apply in_or_app. right. now left. }
  assert (List.length db' = (n - 1)%nat) as Hlen'.
  { assert (Permutation (map msg_id db)
              (message_id :: map msg_id db')) as HP.
    { apply NoDup_Permutation; [assumption| |].
      - constructor.
        + intros H. apply in_map_iff in H as (m & Em & Hm).
          apply Hin in Hm. tauto.
        + rewrite Hdb'. clear - Hnd.
          induction db as [|m db IH]; simpl; [constructor|].
          inversion Hnd as [|? ? Hm Hnd']; subst.
          destruct (negb (msg_id m =? message_id)); simpl; [|now apply IH].
          constructor; [|now apply IH].
          intros H. apply Hm. apply in_map_iff in H as (x & Ex & Hx).
          apply filter_In in Hx as [Hx _].
          rewrite <- Ex. now apply in_map.
      - intros k. split.
        + intros H. apply in_map_iff in H as (m & Em & Hm).
          destruct (Z.eq_dec k message_id) as [->|Hne]; [now left|].
          right. apply in_map_iff. exists m. split; [assumption|].
          apply Hin. split; [assumption|congruence].
        + intros [<-|H].
          * rewrite Hids. apply in_map_iff.
            exists (Z.to_nat (message_id - 1)). split; [lia|].
            apply in_seq. lia.
          * apply in_map_iff in H as (m & Em & Hm).
            apply Hin in Hm as [Hm _]. rewrite <- Em. now apply in_map. }
    apply Permutation_length in HP. simpl in HP.
    rewrite !length_map in HP. lia. }
  assert (snd (create_message now message db')
          = (db' ++ [ {| msg_id := Z.of_nat n;
                         msg_text := text message;
                         msg_author := author message;
                         msg_timestamp := now |} ])%list) as Hnew.
  { unfold create_message. cbn [snd]. rewrite Hlen'.
    replace (Z.of_nat (n - 1) + 1) with (Z.of_nat n) by lia.
    reflexivity. }
  split; [exact Hnew|split; [exists before, last; auto|]].
  rewrite Hnew, map_app. cbn [map msg_id].
  intros Hdup. apply NoDup_remove_2 in Hdup. apply Hdup.
  rewrite app_nil_r. rewrite <- Elast. now apply in_map.
Qed.

Lemma create_after_delete_reuses_id_witness :
  ~ NoDup
      (map msg_id
         (snd (create_message 30 {| text := "c"; author := None |}
                 (snd (delete_message 1
                         (create_each
                            [(10%Q, {| text := "a"; author := None |});
                             (20%Q, {| text := "b"; author := None |})]
                            [])))))).
Proof.
  refine (proj2 (proj2 (create_after_delete_reuses_id
           [(10%Q, {| text := "a"; author := None |});
            (20%Q, {| text := "b"; author := None |})]
           1 30 {| text := "c"; author := None |} _))).
  simpl. lia.
Defined.

(** X17. [search] returns at most three results, as many as the limit
    when the limit is less, and none when the limit is zero or negative;
    the result at position [i] is numbered [i + 1] and quotes the
    query. *)
Theorem search_results_count (q : string) (n : Z) :
  List.length (results (search q n)) = Z.to_nat (Z.min n 3)
  /\ (List.length (results (search q n)) <= 3)%nat
  /\ (n <= 0 -> results (search q n) = [])
  /\ forall i,
       (i < List.length (results (search q n)))%nat ->
       nth_error (results (search q n)) i
       = Some ("Result " ++ int_repr (Z.of_nat i + 1)
                 ++ " for '" ++ q ++ "'").
Proof.
  unfold search, range. cbn [results].
  rewrite !length_map, length_seq.
  split; [reflexivity|split; [lia|split]].
  - intros H. replace (Z.to_nat (Z.min n 3)) with 0%nat by lia.
    reflexivity.
  - intros i Hi.
    rewrite map_map.
    rewrite (nth_error_map
               (fun x : nat =>
                  "Result " ++ int_repr (Z.of_nat x + 1)
                    ++ " for '" ++ q ++ "'")).
    rewrite nth_error_seq.
    destruct (Nat.ltb_spec i (Z.to_nat (Z.min n 3))); [reflexivity|lia].
Qed.
